(** * Comment moderation model (backend/models/Comment.js)

    A shallow embedding of the Mongoose [Comment] model: the schema, the
    pre-save middleware with its spam heuristic, the moderation methods,
    the reply and like helpers and the approved-comments query, followed by
    the properties the specification states about them. *)

From Stdlib Require Import ZArith NArith Ascii String Lia.
From stdpp Require Import base decidable option list sorting gmap.

Local Open Scope Z_scope.

(** ** JavaScript strings and the string primitives the model uses *)

Module JS.

(** A JavaScript string is a sequence of UTF-16 code units. *)
Definition codeUnit := N.
Definition jsString := list codeUnit.
Bind Scope N_scope with codeUnit.

(** Literals of the source are ASCII; [lit] turns one into code units. *)
Definition lit (s : string) : jsString :=
  map N_of_ascii (list_ascii_of_string s).

(** [/[A-Z]/] on one code unit. *)
Definition isUpperAZ (u : codeUnit) : bool :=
  ((65 <=? u) && (u <=? 90))%N.

(** Line terminators: LF, CR, U+2028, U+2029. The regular expression
    atom [.] (without the [s] flag) matches every code unit but these. *)
Definition isLineTerminator (u : codeUnit) : bool :=
  ((u =? 10) || (u =? 13) || (u =? 8232) || (u =? 8233))%N.

(** White space of [String.prototype.trim]: TAB, VT, FF, SP, NBSP, BOM,
    the Unicode space separators, and the line terminators. *)
Definition isWhiteSpace (u : codeUnit) : bool :=
  ((u =? 9) || (u =? 11) || (u =? 12) || (u =? 32) || (u =? 160)
   || (u =? 5760) || ((8192 <=? u) && (u <=? 8202)) || (u =? 8239)
   || (u =? 8287) || (u =? 12288) || (u =? 65279))%N
  || isLineTerminator u.

Fixpoint trimStart (s : jsString) : jsString :=
  match s with
  | [] => []
  | u :: t => if isWhiteSpace u then trimStart t else s
  end.

Definition trimEnd (s : jsString) : jsString :=
  rev (trimStart (rev s)).

Definition trim (s : jsString) : jsString := trimEnd (trimStart s).

(** [s.startsWith(p)]. *)
Fixpoint startsWith (p s : jsString) : bool :=
  match p, s with
  | [], _ => true
  | _ :: _, [] => false
  | a :: p', b :: s' => (a =? b)%N && startsWith p' s'
  end.

(** [s.includes(w)]: [w] starts at some position of [s]. *)
Fixpoint includes (s w : jsString) : bool :=
  startsWith w s
  || match s with
     | [] => false
     | _ :: t => includes t w
     end.

(** ASCII part of [toLowerCase]. *)
Definition asciiLower (u : codeUnit) : codeUnit :=
  if isUpperAZ u then (u + 32)%N else u.

Definition isAscii (u : codeUnit) : bool := (u <? 128)%N.

(** A regular expression is represented by its anchored matcher: given
    the rest of the subject from some position, the length of the match
    that starts exactly there, if there is one. None of the expressions
    of the model matches the empty string. *)
Definition Regex := jsString -> option nat.

(** [re.test(s)]: the expression matches at some position. *)
Fixpoint test (re : Regex) (s : jsString) : bool :=
  match re s with
  | Some _ => true
  | None => match s with
            | [] => false
            | _ :: t => test re t
            end
  end.

(** [(s.match(re_g) || []).length] for a global expression: matches are
    taken left to right, each search resuming after the previous match.
    [skip] counts the code units still covered by the last match. *)
Fixpoint matchAllCount (re : Regex) (skip : nat) (s : jsString) : nat :=
  match s with
  | [] => 0%nat
  | _ :: t =>
      match skip with
      | S k => matchAllCount re k t
      | O => match re s with
             | Some n => S (matchAllCount re (pred n) t)
             | None => matchAllCount re 0 t
             end
      end
  end.

(** [/https?:\/\//]: the optional [s] is greedy. *)
Definition linkRe : Regex := fun s =>
  if startsWith (lit "https://") s then Some 8%nat
  else if startsWith (lit "http://") s then Some 7%nat
  else None.

(** [/[A-Z]/]. *)
Definition upperRe : Regex := fun s =>
  match s with
  | u :: _ => if isUpperAZ u then Some 1%nat else None
  | [] => None
  end.

(** Number of leading code units of [s] equal to [u]. *)
Fixpoint runLength (u : codeUnit) (s : jsString) : nat :=
  match s with
  | v :: t => if (u =? v)%N then S (runLength u t) else 0%nat
  | [] => 0%nat
  end.

(** [/(.)\1{4,}/]: a code unit that is not a line terminator, followed
    by at least four more copies of itself (the quantifier is greedy). *)
Definition repeatRe : Regex := fun s =>
  match s with
  | u :: t =>
      if isLineTerminator u then None
      else let k := runLength u t in
           if (4 <=? k)%nat then Some (S k) else None
  | [] => None
  end.

Section Runtime.

(** [String.prototype.toLowerCase] follows the Unicode case tables of
    the JavaScript runtime, which are not part of the repository: they
    are a parameter, consulted only for strings with a code unit
    outside ASCII. On ASCII it maps [A-Z] to [a-z] and nothing else. *)
Variable unicodeToLowerCase : jsString -> jsString.

Definition toLowerCase (s : jsString) : jsString :=
  if forallb isAscii s then map asciiLower s else unicodeToLowerCase s.

End Runtime.

End JS.

Import JS.

(** ** The schema *)

(** Object ids are opaque; [toString] on them is injective, so comparing
    the string forms (as [toggleLike] does) is comparing the ids. *)
Definition ObjectId := N.
Bind Scope N_scope with ObjectId.

(** Instants, in milliseconds since the epoch. *)
Definition Date := Z.

Inductive Status := pending | approved | rejected | spam.

Inductive Flower :=
  rose | daisy | lavender | sunflower | tulip | lily | orchid | jasmine
  | otherFlower.

Inductive Mood :=
  happy | inspired | peaceful | excited | grateful | curious | otherMood.

#[global] Instance Status_eq_dec : EqDecision Status.
Proof. solve_decision. Defined.

Record Author := mkAuthor {
  name : jsString;
  email : jsString;
  website : jsString;
  userId : option ObjectId
}.

(** An element of [likes]. *)
Module Like.
Record t := mk { user : ObjectId; createdAt : Date }.
End Like.

(** A comment document. Besides the declared paths it carries [_id], the
    [createdAt] and [updatedAt] stamps of the [timestamps] option and the
    document state that the middleware and that option read: [isNew],
    [isModified('content')], and whether some other path is modified
    ([isModified()] holds when either of the two does). *)
Record Comment := mkComment {
  _id : ObjectId;
  postId : ObjectId;
  author : Author;
  content : jsString;
  status : Status;
  parentComment : option ObjectId;
  replies : list ObjectId;
  likes : list Like.t;
  isEdited : bool;
  editedAt : option Date;
  moderatedBy : option ObjectId;
  moderatedAt : option Date;
  moderationReason : option jsString;
  ipAddress : jsString;
  userAgent : jsString;
  spamScore : Z;
  favoriteFlower : Flower;
  mood : Mood;
  createdAt : option Date;
  updatedAt : option Date;
  isNew : bool;
  isModified_content : bool;
  isModified_other : bool
}.

(** Assignments to single paths. *)
Definition set_content (v : jsString) (c : Comment) : Comment :=
  mkComment (_id c) (postId c) (author c) v (status c) (parentComment c)
    (replies c) (likes c) (isEdited c) (editedAt c) (moderatedBy c)
    (moderatedAt c) (moderationReason c) (ipAddress c) (userAgent c)
    (spamScore c) (favoriteFlower c) (mood c) (createdAt c) (updatedAt c) (isNew c)
    (isModified_content c) (isModified_other c).

Definition set_status (v : Status) (c : Comment) : Comment :=
  mkComment (_id c) (postId c) (author c) (content c) v (parentComment c)
    (replies c) (likes c) (isEdited c) (editedAt c) (moderatedBy c)
    (moderatedAt c) (moderationReason c) (ipAddress c) (userAgent c)
    (spamScore c) (favoriteFlower c) (mood c) (createdAt c) (updatedAt c) (isNew c)
    (isModified_content c) (isModified_other c).

Definition set_replies (v : list ObjectId) (c : Comment) : Comment :=
  mkComment (_id c) (postId c) (author c) (content c) (status c)
    (parentComment c) v (likes c) (isEdited c) (editedAt c) (moderatedBy c)
    (moderatedAt c) (moderationReason c) (ipAddress c) (userAgent c)
    (spamScore c) (favoriteFlower c) (mood c) (createdAt c) (updatedAt c) (isNew c)
    (isModified_content c) (isModified_other c).

Definition set_likes (v : list Like.t) (c : Comment) : Comment :=
  mkComment (_id c) (postId c) (author c) (content c) (status c)
    (parentComment c) (replies c) v (isEdited c) (editedAt c) (moderatedBy c)
    (moderatedAt c) (moderationReason c) (ipAddress c) (userAgent c)
    (spamScore c) (favoriteFlower c) (mood c) (createdAt c) (updatedAt c) (isNew c)
    (isModified_content c) (isModified_other c).

Definition set_isEdited (v : bool) (c : Comment) : Comment :=
  mkComment (_id c) (postId c) (author c) (content c) (status c)
    (parentComment c) (replies c) (likes c) v (editedAt c) (moderatedBy c)
    (moderatedAt c) (moderationReason c) (ipAddress c) (userAgent c)
    (spamScore c) (favoriteFlower c) (mood c) (createdAt c) (updatedAt c) (isNew c)
    (isModified_content c) (isModified_other c).

Definition set_editedAt (v : option Date) (c : Comment) : Comment :=
  mkComment (_id c) (postId c) (author c) (content c) (status c)
    (parentComment c) (replies c) (likes c) (isEdited c) v (moderatedBy c)
    (moderatedAt c) (moderationReason c) (ipAddress c) (userAgent c)
    (spamScore c) (favoriteFlower c) (mood c) (createdAt c) (updatedAt c) (isNew c)
    (isModified_content c) (isModified_other c).

Definition set_moderatedBy (v : option ObjectId) (c : Comment) : Comment :=
  mkComment (_id c) (postId c) (author c) (content c) (status c)
    (parentComment c) (replies c) (likes c) (isEdited c) (editedAt c) v
    (moderatedAt c) (moderationReason c) (ipAddress c) (userAgent c)
    (spamScore c) (favoriteFlower c) (mood c) (createdAt c) (updatedAt c) (isNew c)
    (isModified_content c) (isModified_other c).

Definition set_moderatedAt (v : option Date) (c : Comment) : Comment :=
  mkComment (_id c) (postId c) (author c) (content c) (status c)
    (parentComment c) (replies c) (likes c) (isEdited c) (editedAt c)
    (moderatedBy c) v (moderationReason c) (ipAddress c) (userAgent c)
    (spamScore c) (favoriteFlower c) (mood c) (createdAt c) (updatedAt c) (isNew c)
    (isModified_content c) (isModified_other c).

Definition set_moderationReason (v : option jsString) (c : Comment)
  : Comment :=
  mkComment (_id c) (postId c) (author c) (content c) (status c)
    (parentComment c) (replies c) (likes c) (isEdited c) (editedAt c)
    (moderatedBy c) (moderatedAt c) v (ipAddress c) (userAgent c)
    (spamScore c) (favoriteFlower c) (mood c) (createdAt c) (updatedAt c) (isNew c)
    (isModified_content c) (isModified_other c).

Definition set_spamScore (v : Z) (c : Comment) : Comment :=
  mkComment (_id c) (postId c) (author c) (content c) (status c)
    (parentComment c) (replies c) (likes c) (isEdited c) (editedAt c)
    (moderatedBy c) (moderatedAt c) (moderationReason c) (ipAddress c)
    (userAgent c) v (favoriteFlower c) (mood c) (createdAt c) (updatedAt c)
    (isNew c)
    (isModified_content c) (isModified_other c).

Definition set_createdAt (v : option Date) (c : Comment) : Comment :=
  mkComment (_id c) (postId c) (author c) (content c) (status c)
    (parentComment c) (replies c) (likes c) (isEdited c) (editedAt c)
    (moderatedBy c) (moderatedAt c) (moderationReason c) (ipAddress c)
    (userAgent c) (spamScore c) (favoriteFlower c) (mood c) v (updatedAt c)
    (isNew c) (isModified_content c) (isModified_other c).

Definition set_updatedAt (v : option Date) (c : Comment) : Comment :=
  mkComment (_id c) (postId c) (author c) (content c) (status c)
    (parentComment c) (replies c) (likes c) (isEdited c) (editedAt c)
    (moderatedBy c) (moderatedAt c) (moderationReason c) (ipAddress c)
    (userAgent c) (spamScore c) (favoriteFlower c) (mood c) (createdAt c) v
    (isNew c) (isModified_content c) (isModified_other c).

(** An assignment that changes a path other than [content] leaves the
    document modified. *)
Definition markModified (c : Comment) : Comment :=
  mkComment (_id c) (postId c) (author c) (content c) (status c)
    (parentComment c) (replies c) (likes c) (isEdited c) (editedAt c)
    (moderatedBy c) (moderatedAt c) (moderationReason c) (ipAddress c)
    (userAgent c) (spamScore c) (favoriteFlower c) (mood c) (createdAt c)
    (updatedAt c) (isNew c) (isModified_content c) true.

(** [this.moderatedAt = new Date()]: the path receives a new clock
    reading, taken to differ from the instant stored before, so the
    document is modified from here on. *)
Definition assignModeratedAt (now : Date) (c : Comment) : Comment :=
  markModified (set_moderatedAt (Some now) c).

(** What the store does to the document state once a save went through. *)
Definition markSaved (c : Comment) : Comment :=
  mkComment (_id c) (postId c) (author c) (content c) (status c)
    (parentComment c) (replies c) (likes c) (isEdited c) (editedAt c)
    (moderatedBy c) (moderatedAt c) (moderationReason c) (ipAddress c)
    (userAgent c) (spamScore c) (favoriteFlower c) (mood c) (createdAt c)
    (updatedAt c) false false false.

(** Assigning [content] goes through the [trim] setter and marks the path
    modified when the value changes. *)
Definition assignContent (v : jsString) (c : Comment) : Comment :=
  let v' := trim v in
  mkComment (_id c) (postId c) (author c) v' (status c) (parentComment c)
    (replies c) (likes c) (isEdited c) (editedAt c) (moderatedBy c)
    (moderatedAt c) (moderationReason c) (ipAddress c) (userAgent c)
    (spamScore c) (favoriteFlower c) (mood c) (createdAt c) (updatedAt c) (isNew c)
    (isModified_content c || negb (bool_decide (v' = content c)))
    (isModified_other c).

(** [minlength]/[maxlength] of [content]: what validation lets through to
    the middleware. *)
Definition validContent (s : jsString) : Prop :=
  (3 <= length s <= 1000)%nat.

(** Virtuals. *)
Definition likesCount (c : Comment) : nat := length (likes c).
Definition repliesCount (c : Comment) : nat := length (replies c).

(** ** Spam heuristic, middleware and methods *)

Definition spamWords : list jsString :=
  map lit
    ["viagra"; "casino"; "lottery"; "prize"; "winner"; "free money"]%string.

(** [(this.content.match(/https?:\/\//g) || []).length]. *)
Definition linkCount (content : jsString) : nat :=
  matchAllCount linkRe 0 content.

(** The threshold of the auto-reject step. *)
Definition autoStatus (score : Z) (current : Status) : Status :=
  if 70 <=? score then spam else current.

(** JavaScript truthiness of an optional string argument: [undefined],
    [null] and the empty string are falsy. *)
Definition truthy (reason : option jsString) : bool :=
  match reason with
  | Some (_ :: _) => true
  | _ => false
  end.

(** [reason || fallback]. *)
Definition orElse (reason : option jsString) (fallback : jsString)
  : jsString :=
  match reason with
  | Some (u :: r) => u :: r
  | _ => fallback
  end.

(** Assigning [moderationReason] goes through its [trim] setter. *)
Definition assignModerationReason (v : jsString) (c : Comment) : Comment :=
  set_moderationReason (Some (trim v)) c.

(** What a submission provides; every other path takes its schema
    default. *)
Record CommentInput := mkInput {
  in_postId : ObjectId;
  in_author : Author;
  in_content : jsString;
  in_parentComment : option ObjectId;
  in_ipAddress : jsString;
  in_userAgent : jsString;
  in_favoriteFlower : option Flower;
  in_mood : option Mood
}.

Section Model.

Variable unicodeToLowerCase : jsString -> jsString.

Local Abbreviation toLowerCase := (JS.toLowerCase unicodeToLowerCase).

(** Each rule of the heuristic, as the update it makes to the running
    [spamScore]. *)

Definition linkRule (content : jsString) (spamScore : Z) : Z :=
  let linkCount := linkCount content in
  let spamScore :=
    if (2 <? linkCount)%nat then spamScore + 30 else spamScore in
  if (5 <? linkCount)%nat then spamScore + 50 else spamScore.

(** [capsRatio > 0.3]. The quotient of the two counts is a double, and
    so is [0.3]; for a subject of at most 2^52 code units the comparison
    holds exactly when [10 * caps > 3 * length] (see [aboveDouble03]),
    and a zero length gives NaN, which exceeds nothing. *)
Definition capsRule (content : jsString) (spamScore : Z) : Z :=
  let caps := matchAllCount upperRe 0 content in
  if (3 * length content <? 10 * caps)%nat
  then spamScore + 20 else spamScore.

Definition repeatRule (content : jsString) (spamScore : Z) : Z :=
  if test repeatRe content then spamScore + 15 else spamScore.

Definition spamWordsRule (content : jsString) (spamScore : Z) : Z :=
  let lowerContent := toLowerCase content in
  fold_left
    (fun spamScore word =>
       if includes lowerContent word then spamScore + 25 else spamScore)
    spamWords spamScore.

(** The running total before the clamp. *)
Definition rawSpamScore (content : jsString) : Z :=
  spamWordsRule content
    (repeatRule content (capsRule content (linkRule content 0))).

Definition computeSpamScore (content : jsString) : Z :=
  Z.min (rawSpamScore content) 100.

(** The document constructor: setters and defaults of the schema. *)
Definition newComment (id : ObjectId) (input : CommentInput) : Comment :=
  let a := in_author input in
  mkComment id (in_postId input)
    (mkAuthor (trim (name a)) (trim (toLowerCase (email a)))
       (trim (website a)) (userId a))
    (trim (in_content input)) pending (in_parentComment input) [] []
    false None None None None (in_ipAddress input) (in_userAgent input)
    0 (default otherFlower (in_favoriteFlower input))
    (default otherMood (in_mood input)) None None true true true.

(** [commentSchema.pre('save', ...)]. *)
Definition preSave (now : Date) (this : Comment) : Comment :=
  let this :=
    if isModified_content this && negb (isNew this)
    then set_editedAt (Some now) (set_isEdited true this)
    else this in
  if isNew this then
    let this := set_spamScore (computeSpamScore (content this)) this in
    set_status (autoStatus (spamScore this) (status this)) this
  else this.

(** The [timestamps] option stamps a document at its first save. *)
Definition stampCreated (now : Date) (this : Comment) : Comment :=
  if isNew this && bool_decide (createdAt this = None)
  then set_createdAt (Some now) this else this.

(** The same option stamps [updatedAt] at every save of a document that
    is new or modified: with the creation stamp when new, with the
    current time otherwise. Its middleware is registered with the schema,
    before the one above, and runs first. *)
Definition stampUpdated (now : Date) (this : Comment) : Comment :=
  if isNew this then set_updatedAt (createdAt this) this
  else if isModified_content this || isModified_other this
       then set_updatedAt (Some now) this
       else this.

(** [this.save()], when validation and the write go through: the
    middleware runs, then the document is no longer new and has no
    pending modification. [now] is the clock reading of the call. *)
Definition save (now : Date) (this : Comment) : Comment :=
  markSaved (preSave now (stampUpdated now (stampCreated now this))).

Definition approve (now : Date) (moderatorId : ObjectId)
    (reason : option jsString) (this : Comment) : Comment :=
  let this := set_status approved this in
  let this := set_moderatedBy (Some moderatorId) this in
  let this := assignModeratedAt now this in
  let this :=
    match reason with
    | Some (u :: r) => assignModerationReason (u :: r) this
    | _ => this
    end in
  save now this.

Definition reject (now : Date) (moderatorId : ObjectId)
    (reason : option jsString) (this : Comment) : Comment :=
  let this := set_status rejected this in
  let this := set_moderatedBy (Some moderatorId) this in
  let this := assignModeratedAt now this in
  let this :=
    assignModerationReason
      (orElse reason (lit "Content violates community guidelines"))
      this in
  save now this.

Definition markAsSpam (now : Date) (moderatorId : ObjectId)
    (reason : option jsString) (this : Comment) : Comment :=
  let this := set_status spam this in
  let this := set_moderatedBy (Some moderatorId) this in
  let this := assignModeratedAt now this in
  let this :=
    assignModerationReason (orElse reason (lit "Detected as spam")) this in
  save now this.

Definition addReply (now : Date) (replyId : ObjectId) (this : Comment)
  : Comment :=
  let this :=
    if negb (bool_decide (replyId ∈ replies this))
    then markModified (set_replies (replies this ++ [replyId]) this)
    else this in
  save now this.

Definition toggleLike (now : Date) (userId : ObjectId) (this : Comment)
  : Comment :=
  let existingLike :=
    List.find (fun like => bool_decide (Like.user like = userId))
      (likes this) in
  let this :=
    match existingLike with
    | Some _ =>
        markModified
          (set_likes
             (filter (fun like => Like.user like ≠ userId) (likes this))
             this)
    | None =>
        markModified (set_likes (likes this ++ [Like.mk userId now]) this)
    end in
  save now this.

End Model.

(** The comments the operations above can produce: a constructed
    document, and whatever assignments of content, saves and method calls
    make of it. *)
Inductive reachable (lower : jsString -> jsString) : Comment -> Prop :=
| reach_new id input :
    reachable lower (newComment lower id input)
| reach_assignContent v c :
    reachable lower c -> reachable lower (assignContent v c)
| reach_save now c :
    reachable lower c -> reachable lower (save lower now c)
| reach_approve now moderatorId reason c :
    reachable lower c ->
    reachable lower (approve lower now moderatorId reason c)
| reach_reject now moderatorId reason c :
    reachable lower c ->
    reachable lower (reject lower now moderatorId reason c)
| reach_markAsSpam now moderatorId reason c :
    reachable lower c ->
    reachable lower (markAsSpam lower now moderatorId reason c)
| reach_addReply now replyId c :
    reachable lower c -> reachable lower (addReply lower now replyId c)
| reach_toggleLike now userId c :
    reachable lower c -> reachable lower (toggleLike lower now userId c).

(** ** The approved-comments query *)

(** The store's order on an optional date: a missing value sorts first. *)
Definition dateLe (a b : option Date) : Prop :=
  match a, b with
  | None, _ => True
  | Some _, None => False
  | Some x, Some y => x <= y
  end.

#[global] Instance dateLe_dec : RelDecision dateLe.
Proof. intros [x|] [y|]; simpl; apply _. Defined.

(** [sort({ createdAt: 1 })] and [sort({ createdAt: -1 })]. *)
Definition oldestFirst (a b : Comment) : Prop :=
  dateLe (createdAt a) (createdAt b).
Definition newestFirst (a b : Comment) : Prop :=
  dateLe (createdAt b) (createdAt a).

#[global] Instance oldestFirst_dec : RelDecision oldestFirst.
Proof. intros a b. unfold oldestFirst. apply _. Defined.
#[global] Instance newestFirst_dec : RelDecision newestFirst.
Proof. intros a b. unfold newestFirst. apply _. Defined.

(** A result of the query: the comment with its [replies] path populated. *)
Record Populated := mkPopulated {
  doc : Comment;
  populatedReplies : list Comment
}.

(** The filter of [find]. *)
Definition topLevelApproved (post : ObjectId) (c : Comment) : Prop :=
  postId c = post ∧ status c = approved ∧ parentComment c = None.

(** The documents [populate] attaches to [c]: those its [replies] refer
    to that pass [match]. *)
Definition approvedReplyOf (c r : Comment) : Prop :=
  _id r ∈ replies c ∧ status r = approved.

#[global] Instance topLevelApproved_dec post c :
  Decision (topLevelApproved post c).
Proof. unfold topLevelApproved. apply _. Defined.
#[global] Instance approvedReplyOf_dec c r : Decision (approvedReplyOf c r).
Proof. unfold approvedReplyOf. apply _. Defined.

Definition populateReplies (coll : list Comment) (c : Comment) : Populated :=
  mkPopulated c (merge_sort oldestFirst (filter (approvedReplyOf c) coll)).

(** [coll] is the content of the collection. *)
Definition findApprovedByPost (coll : list Comment) (post : ObjectId)
  : list Populated :=
  populateReplies coll
    <$> merge_sort newestFirst (filter (topLevelApproved post) coll).

(** ** Vocabulary of the properties, and sample documents *)

(** The double nearest to 0.3 is [5404319552844595 / 2^54], with an odd
    significand. A quotient [caps / len] rounds to a double above it
    exactly when it reaches the midpoint to the next double,
    [10808639105689191 / 2^55]. *)
Definition aboveDouble03 (caps len : Z) : Prop :=
  10808639105689191 * len <= caps * 2 ^ 55.

(** A runtime whose case tables hold nothing beyond ASCII; it serves the
    concrete runs, whose strings are ASCII anyway. *)
Definition asciiRuntime : jsString -> jsString := map asciiLower.

(** Six links in otherwise plain text. *)
Definition sixLinks : jsString :=
  lit ("see http://a.com https://b.com http://c.com https://d.com "
       ++ "http://e.com https://f.com").

(** A run in the words of the specification: some code unit occurs five
    times in a row. *)
Definition hasRun (content : jsString) : Prop :=
  ∃ pre u post, content = pre ++ replicate 5 u ++ post.

(** The same, for a code unit that is not a line terminator. *)
Definition hasNonBreakRun (content : jsString) : Prop :=
  ∃ pre u post,
    isLineTerminator u = false ∧ content = pre ++ replicate 5 u ++ post.

(** The rule as the specification words it. *)
Definition repeatRule_as_specified (content : jsString) : Prop :=
  (hasRun content → repeatRule content 0 = 15)
  ∧ (¬ hasRun content → repeatRule content 0 = 0).

(** Two paragraphs separated by five line feeds: "a", LF x 5, "b". *)
Definition blankLines : jsString := [97; 10; 10; 10; 10; 10; 98]%N.

(** A stored, harmless comment, and the same with its content replaced,
    but not yet saved, by a text that would score 100. *)
Definition storedHello : Comment :=
  save asciiRuntime 5
    (newComment asciiRuntime 1
       (mkInput 2 (mkAuthor (lit "Ada") (lit "ada@example.org") [] None)
          (lit "hello there") None (lit "10.0.0.1") (lit "curl") None None)).

Definition editedHello : Comment :=
  assignContent (lit "viagra casino lottery winner") storedHello.

(** A comment that was constructed but never saved. *)
Definition spammyDraft : Comment :=
  newComment asciiRuntime 1
    (mkInput 2 (mkAuthor (lit "Bob") (lit "bob@example.org") [] None)
       (lit "viagra casino lottery") None (lit "10.0.0.2") (lit "curl")
       None None).

(** Every path other than the four moderation paths and [updatedAt]
    agrees, and so do [isNew] and [isModified('content')]. *)
Definition sameOutsideModeration (c c' : Comment) : Prop :=
  _id c' = _id c ∧ postId c' = postId c ∧ author c' = author c
  ∧ content c' = content c ∧ parentComment c' = parentComment c
  ∧ replies c' = replies c ∧ likes c' = likes c
  ∧ isEdited c' = isEdited c ∧ editedAt c' = editedAt c
  ∧ ipAddress c' = ipAddress c ∧ userAgent c' = userAgent c
  ∧ spamScore c' = spamScore c ∧ favoriteFlower c' = favoriteFlower c
  ∧ mood c' = mood c ∧ createdAt c' = createdAt c
  ∧ isNew c' = isNew c ∧ isModified_content c' = isModified_content c.

(** The reason a transition stores: the supplied one, trimmed by the
    setter, or [fallback] when none (or an empty one) is supplied. *)
Definition storedReason (reason : option jsString)
    (fallback : option jsString) : option jsString :=
  if truthy reason then Some (trim (default [] reason)) else fallback.

(** What the specification says of [approve] on every comment: the
    status becomes [approved] and, among the other paths, the score, the
    edit marks and the update stamp stay. *)
Definition approve_as_specified (lower : jsString -> jsString) : Prop :=
  ∀ now moderatorId reason c,
    let a := approve lower now moderatorId reason c in
    status a = approved ∧ spamScore a = spamScore c
    ∧ isEdited a = isEdited c ∧ editedAt a = editedAt c
    ∧ updatedAt a = updatedAt c.

(** How many times [r] occurs in a list of ids. *)
Definition occurrences (r : ObjectId) (ids : list ObjectId) : nat :=
  length (filter (fun x => x = r) ids).

(** The users who like a comment. *)
Definition likers (c : Comment) : gset ObjectId :=
  list_to_set (Like.user <$> likes c).

(** The entries of users other than [u]. *)
Definition likesOfOthers (u : ObjectId) (entries : list Like.t)
  : list Like.t :=
  filter (fun like => Like.user like ≠ u) entries.

(** A stored comment liked once, by user 7 at instant 100. *)
Definition likedOnce : Comment :=
  toggleLike asciiRuntime 100 7 storedHello.

(** What the specification says of two calls of [toggleLike] with one
    user: the like entries are as they were. *)
Definition likes_restored_as_specified (lower : jsString -> jsString)
  : Prop :=
  ∀ t1 t2 u c,
    likes (toggleLike lower t2 u (toggleLike lower t1 u c)) = likes c.

(** A submission that went through its first save. *)
Definition submit (id post : ObjectId) (at_ : Date) (text : string)
    (parent : option ObjectId) : Comment :=
  save asciiRuntime at_
    (newComment asciiRuntime id
       (mkInput post (mkAuthor (lit "Ada") (lit "ada@example.org") [] None)
          (lit text) parent [] [] None None)).

(** A small collection: post 2 has two approved top-level comments (ids
    1 and 5, created at 10 and 50); comment 1 refers to the replies 2, 3
    and 4, of which 3 is still pending. Post 9 has one approved
    comment. *)
Definition sampleCollection : list Comment :=
  [ approve asciiRuntime 60 99 None
      (addReply asciiRuntime 41 4
         (addReply asciiRuntime 31 3
            (addReply asciiRuntime 21 2 (submit 1 2 10 "first" None))));
    approve asciiRuntime 61 99 None
      (submit 2 2 40 "a late reply" (Some 1%N));
    submit 3 2 30 "a reply awaiting review" (Some 1%N);
    approve asciiRuntime 62 99 None
      (submit 4 2 20 "an early reply" (Some 1%N));
    approve asciiRuntime 63 99 None (submit 5 2 50 "second" None);
    approve asciiRuntime 64 99 None (submit 6 9 55 "elsewhere" None) ].

(** ** The moderation queue *)

(** A post, as [backend/models/Post.js] declares it. *)
Module Post.

Inductive Category :=
  personal | travel | photography | lifestyle | technology | food | art
  | music | books | sports | health | entertainment.

Inductive Status := draft | published.

Record FeaturedImage := mkImage {
  url : option jsString;
  altText : option jsString;
  caption : option jsString
}.

Record t := mk {
  _id : ObjectId;
  title : jsString;
  slug : option jsString;
  content : jsString;
  excerpt : option jsString;
  author : ObjectId;
  category : Category;
  tags : list jsString;
  featuredImage : FeaturedImage;
  status : Status;
  featured : bool;
  views : Z;
  likes : list ObjectId;
  likesCount : Z;
  comments : list ObjectId;
  commentsCount : Z
}.

(** What [populate('postId', 'title slug')] keeps of a post. *)
Record summary := mkSummary {
  s_id : ObjectId;
  s_title : jsString;
  s_slug : option jsString
}.

Definition select (p : t) : summary := mkSummary (_id p) (title p) (slug p).

End Post.

(** A result of the queue: the comment with its [postId] path populated,
    [None] when no post has that id. *)
Record Pending := mkPending {
  item : Comment;
  post : option Post.summary
}.

Definition populatePost (posts : list Post.t) (c : Comment) : Pending :=
  mkPending c
    (Post.select
       <$> List.find (fun p => bool_decide (Post._id p = postId c)) posts).

(** [coll] and [posts] are the contents of the two collections. *)
Definition findPendingModeration (coll : list Comment)
    (posts : list Post.t) : list Pending :=
  populatePost posts
    <$> merge_sort newestFirst (filter (fun c => status c = pending) coll).

(** ** One operation on a comment *)

(** [step lower c c']: one assignment of content, save or method call
    takes [c] to [c']. *)
Inductive step (lower : jsString -> jsString) : Comment -> Comment -> Prop :=
| step_assignContent v c :
    step lower c (assignContent v c)
| step_save now c :
    step lower c (save lower now c)
| step_approve now moderatorId reason c :
    step lower c (approve lower now moderatorId reason c)
| step_reject now moderatorId reason c :
    step lower c (reject lower now moderatorId reason c)
| step_markAsSpam now moderatorId reason c :
    step lower c (markAsSpam lower now moderatorId reason c)
| step_addReply now replyId c :
    step lower c (addReply lower now replyId c)
| step_toggleLike now userId c :
    step lower c (toggleLike lower now userId c).

(** [w] occurs in [s] as a contiguous piece. *)
Definition isSubstring (w s : jsString) : Prop :=
  ∃ pre post, s = pre ++ w ++ post.

(** The number of code units [A-Z] of a string. *)
Definition upperCount (s : jsString) : nat :=
  length (filter (fun u => isUpperAZ u = true) s).

(** The paths no operation writes once the comment exists. *)
Definition sameIdentity (c c' : Comment) : Prop :=
  _id c' = _id c ∧ postId c' = postId c ∧ author c' = author c
  ∧ parentComment c' = parentComment c ∧ ipAddress c' = ipAddress c
  ∧ userAgent c' = userAgent c ∧ favoriteFlower c' = favoriteFlower c
  ∧ mood c' = mood c.

(** [storedHello] after a later edit, a rejection, an approval and a
    like. *)
Definition busyHello : Comment :=
  toggleLike asciiRuntime 40 7
    (approve asciiRuntime 30 4 None
       (reject asciiRuntime 20 3 None
          (save asciiRuntime 10
             (assignContent (lit "  hello again ") storedHello)))).

(** The number of positions of [s] at which [re] matches. *)
Fixpoint startCount (re : Regex) (s : jsString) : nat :=
  ((if re s is Some _ then 1 else 0)
   + match s with
     | [] => 0
     | _ :: t => startCount re t
     end)%nat.

(** * Properties *)

(** ** The heuristic: each rule adds a fixed amount to the running total *)

Section ScoreFacts.

Variable lower : jsString -> jsString.

Lemma linkRule_add content acc :
  linkRule content acc = acc + linkRule content 0.
Proof.
  unfold linkRule.
  destruct (2 <? _)%nat, (5 <? _)%nat; lia.
Qed.

Lemma capsRule_add content acc :
  capsRule content acc = acc + capsRule content 0.
Proof. unfold capsRule. destruct (_ <? _)%nat; lia. Qed.

Lemma repeatRule_add content acc :
  repeatRule content acc = acc + repeatRule content 0.
Proof. unfold repeatRule. destruct (test _ _); lia. Qed.

(** The [forEach] over the denylist adds 25 for every word found. *)
Lemma forEach_add (found : jsString -> bool) (words : list jsString) acc :
  fold_left (fun s w => if found w then s + 25 else s) words acc
  = acc + 25 * Z.of_nat (length (filter (fun w => found w = true) words)).
Proof.
  revert acc. induction words as [|w words IH]; intros acc; simpl.
  - lia.
  - rewrite IH, filter_cons. destruct (found w) eqn:E.
    + rewrite decide_True by done. simpl length. lia.
    + rewrite decide_False by done. lia.
Qed.

Lemma spamWordsRule_add content acc :
  spamWordsRule lower content acc = acc + spamWordsRule lower content 0.
Proof. unfold spamWordsRule. rewrite !forEach_add. lia. Qed.

Lemma spamWordsRule_range content :
  0 <= spamWordsRule lower content 0 <= 150.
Proof.
  unfold spamWordsRule. rewrite forEach_add.
  pose proof (length_filter
    (fun w => includes (toLowerCase lower content) w = true) spamWords) as H.
  change (length spamWords) with 6%nat in H. lia.
Qed.

Lemma linkRule_range content : 0 <= linkRule content 0 <= 80.
Proof. unfold linkRule. destruct (2 <? _)%nat, (5 <? _)%nat; lia. Qed.

Lemma capsRule_range content : 0 <= capsRule content 0 <= 20.
Proof. unfold capsRule. destruct (_ <? _)%nat; lia. Qed.

Lemma repeatRule_range content : 0 <= repeatRule content 0 <= 15.
Proof. unfold repeatRule. destruct (test _ _); lia. Qed.

(** The raw total is the sum of the four contributions. *)
Lemma rawSpamScore_sum content :
  rawSpamScore lower content
  = linkRule content 0 + capsRule content 0 + repeatRule content 0
    + spamWordsRule lower content 0.
Proof.
  unfold rawSpamScore.
  rewrite spamWordsRule_add, repeatRule_add, capsRule_add. lia.
Qed.

Lemma rawSpamScore_nonneg content : 0 <= rawSpamScore lower content.
Proof.
  rewrite rawSpamScore_sum.
  pose proof (linkRule_range content). pose proof (capsRule_range content).
  pose proof (repeatRule_range content).
  pose proof (spamWordsRule_range content). lia.
Qed.

(** What the first save of a freshly constructed comment stores. *)
Lemma save_new_spamScore now id input :
  spamScore (save lower now (newComment lower id input))
  = computeSpamScore lower (trim (in_content input)).
Proof. reflexivity. Qed.

Lemma save_new_status now id input :
  status (save lower now (newComment lower id input))
  = autoStatus (computeSpamScore lower (trim (in_content input))) pending.
Proof. reflexivity. Qed.

End ScoreFacts.

(** The integer test of [capsRule] agrees with the comparison of the
    rounded quotient against the double 0.3. *)
Lemma capsRatio_threshold (caps len : Z) :
  0 <= caps → 0 < len <= 2 ^ 52 →
  aboveDouble03 caps len ↔ 3 * len < 10 * caps.
Proof.
  unfold aboveDouble03. intros Hcaps Hlen.
  change (2 ^ 55) with 36028797018963968.
  change (2 ^ 52) with 4503599627370496 in Hlen.
  split; lia.
Qed.

(** ** Score bounds and the status threshold *)

(** C1. Whatever the content, the score the middleware computes is an
    integer between 0 and 100: it is the raw total when that is at most
    100 and 100 otherwise, and this is what the first save stores. A
    content of valid length with six links, five denylist terms, mostly
    capitals and a repeated run has raw total 240 and score 100. *)
Theorem spamScore_clamped (lower : jsString -> jsString) :
  (∀ content,
     0 <= computeSpamScore lower content <= 100
     ∧ computeSpamScore lower content
       = if 100 <? rawSpamScore lower content then 100
         else rawSpamScore lower content)
  ∧ (∀ now id input,
       0 <= spamScore (save lower now (newComment lower id input)) <= 100)
  ∧ (let loud :=
       lit ("VIAGRA CASINO LOTTERY PRIZE WINNER http://a http://b "
            ++ "http://c http://d http://e http://f !!!!!") in
     validContent loud
     ∧ rawSpamScore lower loud = 240
     ∧ computeSpamScore lower loud = 100).
Proof.
  assert (Hall : ∀ content,
    0 <= computeSpamScore lower content <= 100
    ∧ computeSpamScore lower content
      = if 100 <? rawSpamScore lower content then 100
        else rawSpamScore lower content).
  { intros content. unfold computeSpamScore.
    pose proof (rawSpamScore_nonneg lower content) as Hraw.
    destruct (Z.ltb_spec 100 (rawSpamScore lower content)); lia. }
  split; [exact Hall|]. split.
  - intros now id input. rewrite save_new_spamScore. apply Hall.
  - unfold validContent. vm_compute. repeat split; lia || discriminate.
Qed.

(** C2. After the first save of a new comment the status is [spam] when
    the stored score is at least 70 and [pending] when it is below 70;
    at the boundary, 69 leaves [pending] and 70 gives [spam]. *)
Theorem initial_status_threshold (lower : jsString -> jsString)
    (now : Date) (id : ObjectId) (input : CommentInput) :
  let c := save lower now (newComment lower id input) in
  ((70 <= spamScore c ∧ status c = spam)
   ∨ (spamScore c < 70 ∧ status c = pending))
  ∧ autoStatus 69 pending = pending
  ∧ autoStatus 70 pending = spam.
Proof.
  intros c. subst c. rewrite save_new_spamScore, save_new_status.
  split; [|split; reflexivity].
  unfold autoStatus.
  destruct (Z.leb_spec 70 (computeSpamScore lower (trim (in_content input))));
    [left | right]; split; trivial.
Qed.

(** A content scoring exactly 70 (three links, one repeated run, one
    denylist term) starts as [spam]; one scoring 65 (three links, mostly
    capitals, one repeated run) starts as [pending], and so does the
    three-link scenario of the specification, which scores 30. *)
Example threshold_runs (lower : jsString -> jsString) (now : Date) :
  let at30 := mkInput 2 (mkAuthor [] [] [] None)
                (lit ("Check this out https://a.com https://b.com "
                      ++ "https://c.com"))
                None [] [] None None in
  let at70 := mkInput 2 (mkAuthor [] [] [] None)
                (lit "casino aaaaa http://a http://b http://c")
                None [] [] None None in
  let at65 := mkInput 2 (mkAuthor [] [] [] None)
                (lit "HELLO AAAAA HTTP http://a http://b http://c")
                None [] [] None None in
  spamScore (save lower now (newComment lower 1 at70)) = 70
  ∧ status (save lower now (newComment lower 1 at70)) = spam
  ∧ spamScore (save lower now (newComment lower 1 at65)) = 65
  ∧ status (save lower now (newComment lower 1 at65)) = pending
  ∧ spamScore (save lower now (newComment lower 1 at30)) = 30
  ∧ status (save lower now (newComment lower 1 at30)) = pending.
Proof. vm_compute. repeat split; reflexivity. Qed.

(** ** The link rule and the two scenarios *)

(** C7. With more than five link occurrences both thresholds fire and
    the link rule adds 30 + 50 = 80; if the content triggers no other
    rule, a new comment with that content is stored with score 80 and
    status [spam]. *)
Theorem link_thresholds_stack (lower : jsString -> jsString)
    (content : jsString) (Hlinks : (5 < linkCount content)%nat) :
  (∀ acc, linkRule content acc = acc + 80)
  ∧ (capsRule content 0 = 0 →
     repeatRule content 0 = 0 →
     spamWordsRule lower content 0 = 0 →
     ∀ now id input,
       trim (in_content input) = content →
       let c := save lower now (newComment lower id input) in
       spamScore c = 80 ∧ status c = spam).
Proof.
  assert (Hrule : ∀ acc, linkRule content acc = acc + 80).
  { intros acc. unfold linkRule.
    destruct (Nat.ltb_spec 2 (linkCount content)); [|lia].
    destruct (Nat.ltb_spec 5 (linkCount content)); lia. }
  split; [exact Hrule|].
  intros Hcaps Hrep Hwords now id input Hcontent c. subst c.
  rewrite save_new_status, save_new_spamScore, Hcontent.
  assert (Hscore : computeSpamScore lower content = 80).
  { unfold computeSpamScore.
    rewrite rawSpamScore_sum, Hrule, Hcaps, Hrep, Hwords. reflexivity. }
  rewrite Hscore. split; reflexivity.
Qed.

Lemma link_thresholds_stack_witness :
  linkCount sixLinks = 6%nat
  ∧ linkRule sixLinks 0 = 80
  ∧ (let c := save asciiRuntime 0
                (newComment asciiRuntime 1
                   (mkInput 2 (mkAuthor [] [] [] None) sixLinks None [] []
                      None None)) in
     spamScore c = 80 ∧ status c = spam).
Proof.
  assert (Hlinks : (5 < linkCount sixLinks)%nat) by (vm_compute; lia).
  destruct (link_thresholds_stack asciiRuntime sixLinks Hlinks)
    as [Hrule Hnew].
  split; [reflexivity|]. split; [apply (Hrule 0)|].
  apply Hnew; reflexivity.
Defined.

(** C8. For "WIN A FREE PRIZE NOW CASINO WINNER" the capitals rule adds
    20, exactly the denylist terms casino, prize and winner are found
    (ignoring case) and add 75, no other rule fires, and a new comment
    with this content is stored with score 95 and status [spam]. *)
Theorem win_a_free_prize_scenario (lower : jsString -> jsString)
    (now : Date) (id post : ObjectId) (a : Author)
    (parent : option ObjectId) (ip ua : jsString)
    (flower : option Flower) (md : option Mood) :
  let text := lit "WIN A FREE PRIZE NOW CASINO WINNER" in
  let c := save lower now
             (newComment lower id
                (mkInput post a text parent ip ua flower md)) in
  capsRule text 0 = 20
  ∧ filter (fun w => includes (toLowerCase lower text) w = true) spamWords
    = [lit "casino"; lit "prize"; lit "winner"]
  ∧ spamWordsRule lower text 0 = 75
  ∧ linkRule text 0 = 0
  ∧ repeatRule text 0 = 0
  ∧ rawSpamScore lower text = 95
  ∧ spamScore c = 95
  ∧ status c = spam.
Proof.
  intros text c. subst c.
  rewrite save_new_status, save_new_spamScore. simpl in_content.
  subst text. vm_compute. repeat split; reflexivity.
Qed.

(** ** The repeated-character rule *)

Lemma runLength_ge (u : codeUnit) (n : nat) (s : jsString) :
  (n <= runLength u s)%nat ↔ ∃ post, s = replicate n u ++ post.
Proof.
  revert s. induction n as [|n IH]; intros s.
  - split; [intros _; exists s; reflexivity | intros _; lia].
  - destruct s as [|v t]; simpl.
    + split; [lia | intros [post H]; discriminate].
    + destruct (N.eqb_spec u v) as [->|Hne].
      * rewrite <- Nat.succ_le_mono, IH. split.
        -- intros [post ->]. exists post. reflexivity.
        -- intros [post H]. exists post. congruence.
      * split; [lia | intros [post H]; congruence].
Qed.

Lemma repeatRe_matches (s : jsString) :
  is_Some (repeatRe s)
  ↔ ∃ u post, isLineTerminator u = false ∧ s = replicate 5 u ++ post.
Proof.
  destruct s as [|u t]; unfold repeatRe.
  - split; [intros [? ?]; discriminate|].
    intros (u & post & _ & H). discriminate.
  - destruct (isLineTerminator u) eqn:Hlt.
    + split; [intros [? ?]; discriminate|].
      intros (v & post & Hv & H). simpl in H. congruence.
    + destruct (Nat.leb_spec 4 (runLength u t)) as [Hk|Hk].
      * split; [|intros _; eexists; reflexivity]. intros _.
        apply (runLength_ge u 4 t) in Hk as [post ->].
        exists u, post. split; [exact Hlt | reflexivity].
      * split; [intros [? ?]; discriminate|].
        intros (v & post & _ & H). simpl in H.
        assert (4 <= runLength u t)%nat; [|lia].
        apply runLength_ge. exists post.
        injection H as -> ->. reflexivity.
Qed.

(** [test]: the expression matches the subject from some position on. *)
Lemma test_true (re : Regex) (s : jsString) :
  test re s = true ↔ ∃ pre post, s = pre ++ post ∧ is_Some (re post).
Proof.
  induction s as [|u t IH]; simpl.
  - destruct (re []) eqn:E.
    + split; [|reflexivity]. intros _. exists [], []. rewrite E. eauto.
    + split; [discriminate|].
      intros (pre & post & H & [x Hx]). symmetry in H.
      apply app_eq_nil in H as [_ ->]. congruence.
  - destruct (re (u :: t)) eqn:E.
    + split; [|reflexivity]. intros _. exists [], (u :: t). rewrite E. eauto.
    + rewrite IH. split.
      * intros (pre & post & -> & H). exists (u :: pre), post. eauto.
      * intros (pre & post & H & Hre). destruct pre as [|v pre]; simpl in H.
        -- subst post. rewrite E in Hre. destruct Hre; discriminate.
        -- exists pre, post. split; [congruence | exact Hre].
Qed.

Lemma test_repeatRe (content : jsString) :
  test repeatRe content = true ↔ hasNonBreakRun content.
Proof.
  rewrite test_true. unfold hasNonBreakRun. split.
  - intros (pre & rest & -> & Hm).
    apply repeatRe_matches in Hm as (u & post & Hu & ->). eauto.
  - intros (pre & u & post & Hu & ->).
    exists pre, (replicate 5 u ++ post). split; [reflexivity|].
    apply repeatRe_matches. eauto.
Qed.

(** C9, as the code has it. The rule adds 15 exactly when some code unit
    other than a line terminator (LF, CR, U+2028, U+2029) occurs five or
    more times in a row, and adds nothing otherwise. *)
Theorem repeatRule_non_break_runs (content : jsString) (acc : Z) :
  (hasNonBreakRun content ∧ repeatRule content acc = acc + 15)
  ∨ (¬ hasNonBreakRun content ∧ repeatRule content acc = acc).
Proof.
  unfold repeatRule. destruct (test repeatRe content) eqn:E.
  - left. split; [apply test_repeatRe, E | reflexivity].
  - right. split; [|reflexivity].
    intros H. apply test_repeatRe in H. congruence.
Qed.

(** C9, as stated, fails on a valid content with five line feeds in a
    row: the run is there and the rule adds nothing. *)
Lemma repeatRule_ignores_blank_lines :
  validContent blankLines
  ∧ trim blankLines = blankLines
  ∧ hasRun blankLines
  ∧ repeatRule blankLines 0 = 0
  ∧ spamScore
      (save asciiRuntime 0
         (newComment asciiRuntime 1
            (mkInput 2 (mkAuthor [] [] [] None) blankLines None [] []
               None None))) = 0
  ∧ ¬ repeatRule_as_specified blankLines.
Proof.
  assert (Hrun : hasRun blankLines).
  { exists [97%N], 10%N, [98%N]. reflexivity. }
  split; [unfold validContent; simpl; lia|].
  split; [reflexivity|]. split; [exact Hrun|]. split; [reflexivity|].
  split; [reflexivity|].
  intros [Hspec _]. specialize (Hspec Hrun). discriminate Hspec.
Qed.

(** ** Saving a stored comment *)

Section SaveFacts.

Variable lower : jsString -> jsString.

(** A stored comment without pending modification goes through [save]
    untouched. *)
Lemma save_clean now c :
  isNew c = false → isModified_content c = false →
  isModified_other c = false → save lower now c = c.
Proof.
  destruct c; simpl. intros -> -> ->. reflexivity.
Qed.

(** The result of a save is stored and clean. *)
Lemma save_marks now c :
  isNew (save lower now c) = false
  ∧ isModified_content (save lower now c) = false
  ∧ isModified_other (save lower now c) = false.
Proof. repeat split; reflexivity. Qed.

(** No save recomputes the score or touches the status of a comment
    that is not new. *)
Lemma save_stored_keeps_score now c :
  isNew c = false →
  spamScore (save lower now c) = spamScore c
  ∧ status (save lower now c) = status c.
Proof.
  destruct c; simpl. intros ->.
  unfold save, stampCreated, stampUpdated, preSave; simpl.
  destruct isModified_content0, isModified_other0; split; reflexivity.
Qed.

(** The paths the middleware never writes. *)
Lemma save_keeps_lists now c :
  replies (save lower now c) = replies c
  ∧ likes (save lower now c) = likes c
  ∧ content (save lower now c) = content c.
Proof.
  destruct c. unfold save, stampCreated, stampUpdated, preSave; simpl.
  destruct isNew0, isModified_content0, isModified_other0, createdAt0;
    repeat split; reflexivity.
Qed.

End SaveFacts.

(** C6. Saving a stored comment whose content was modified leaves its
    score and status as they were, sets [isEdited] and stamps [editedAt]
    with the time of the save: scoring happens at the first save only. *)
Theorem save_of_edited_comment (lower : jsString -> jsString)
    (now : Date) (c : Comment)
    (Hstored : isNew c = false) (Hedited : isModified_content c = true) :
  let c' := save lower now c in
  spamScore c' = spamScore c
  ∧ status c' = status c
  ∧ isEdited c' = true
  ∧ editedAt c' = Some now.
Proof.
  intros c'. subst c'.
  destruct (save_stored_keeps_score lower now c Hstored) as [Hs Hst].
  split; [exact Hs|]. split; [exact Hst|].
  destruct c; simpl in *; subst. split; reflexivity.
Qed.

Lemma save_of_edited_comment_witness :
  computeSpamScore asciiRuntime (content editedHello) = 100
  ∧ (let c' := save asciiRuntime 9 editedHello in
     spamScore c' = 0 ∧ status c' = pending
     ∧ isEdited c' = true ∧ editedAt c' = Some 9).
Proof.
  split; [reflexivity|].
  apply (save_of_edited_comment asciiRuntime 9 editedHello); reflexivity.
Defined.

(** ** Moderation *)

(** C3, as the code has it. On a stored comment with no unsaved change
    of content, whatever its status, [approve], [reject] and [markAsSpam]
    set the status to [approved], [rejected] and [spam], overwrite
    [moderatedBy] and [moderatedAt] with the moderator and the current
    time, store the supplied reason or else keep the old one ([approve]),
    "Content violates community guidelines" ([reject]) or "Detected as
    spam" ([markAsSpam]). Their save stamps [updatedAt] with the current
    time and leaves no modification pending; no other path changes. *)
Theorem moderation_of_stored_comment (lower : jsString -> jsString)
    (now : Date) (moderatorId : ObjectId) (reason : option jsString)
    (c : Comment)
    (Hstored : isNew c = false) (Hclean : isModified_content c = false) :
  let a := approve lower now moderatorId reason c in
  let r := reject lower now moderatorId reason c in
  let s := markAsSpam lower now moderatorId reason c in
  (status a = approved ∧ status r = rejected ∧ status s = spam)
  ∧ (moderatedBy a = Some moderatorId ∧ moderatedBy r = Some moderatorId
     ∧ moderatedBy s = Some moderatorId)
  ∧ (moderatedAt a = Some now ∧ moderatedAt r = Some now
     ∧ moderatedAt s = Some now)
  ∧ (moderationReason a = storedReason reason (moderationReason c)
     ∧ moderationReason r
       = storedReason reason
           (Some (lit "Content violates community guidelines"))
     ∧ moderationReason s
       = storedReason reason (Some (lit "Detected as spam")))
  ∧ (updatedAt a = Some now ∧ updatedAt r = Some now
     ∧ updatedAt s = Some now)
  ∧ (isModified_other a = false ∧ isModified_other r = false
     ∧ isModified_other s = false)
  ∧ (sameOutsideModeration c a ∧ sameOutsideModeration c r
     ∧ sameOutsideModeration c s).
Proof.
  destruct c; simpl in Hstored, Hclean; subst.
  destruct reason as [[|u text]|];
    (repeat split; reflexivity).
Qed.

Lemma moderation_of_stored_comment_witness :
  let flagged := markAsSpam asciiRuntime 7 3 None storedHello in
  let a := approve asciiRuntime 8 4 None flagged in
  status flagged = spam
  ∧ moderationReason flagged = Some (lit "Detected as spam")
  ∧ status a = approved
  ∧ moderatedBy a = Some 4%N ∧ moderatedAt a = Some 8
  ∧ moderationReason a = Some (lit "Detected as spam")
  ∧ moderationReason (reject asciiRuntime 8 4 None flagged)
    = Some (lit "Content violates community guidelines")
  ∧ updatedAt flagged = Some 7 ∧ updatedAt a = Some 8
  ∧ sameOutsideModeration flagged a.
Proof.
  intros flagged a.
  destruct (moderation_of_stored_comment asciiRuntime 8 4 None flagged
              eq_refl eq_refl)
    as ((Ha & _ & _) & (Hby & _ & _) & (Hat & _ & _) & (Hra & Hrr & _)
        & (Hup & _ & _) & _ & (Hsame & _ & _)).
  split; [reflexivity|]. split; [reflexivity|].
  split; [exact Ha|]. split; [exact Hby|]. split; [exact Hat|].
  split; [exact Hra|]. split; [exact Hrr|].
  split; [reflexivity|]. split; [exact Hup | exact Hsame].
Defined.

(** What holds of the three transitions on any comment, stored or not:
    moderator, instant and reason are written as above, and content,
    likes and replies are kept. *)
Lemma moderation_always (lower : jsString -> jsString)
    (now : Date) (moderatorId : ObjectId) (reason : option jsString)
    (c : Comment) :
  let a := approve lower now moderatorId reason c in
  let r := reject lower now moderatorId reason c in
  let s := markAsSpam lower now moderatorId reason c in
  status s = spam
  ∧ (moderatedBy a = Some moderatorId ∧ moderatedAt a = Some now
     ∧ moderationReason a = storedReason reason (moderationReason c))
  ∧ (moderatedBy r = Some moderatorId ∧ moderatedAt r = Some now
     ∧ moderationReason r
       = storedReason reason
           (Some (lit "Content violates community guidelines")))
  ∧ (moderatedBy s = Some moderatorId ∧ moderatedAt s = Some now
     ∧ moderationReason s
       = storedReason reason (Some (lit "Detected as spam")))
  ∧ (content a = content c ∧ likes a = likes c ∧ replies a = replies c)
  ∧ (content r = content c ∧ likes r = likes c ∧ replies r = replies c)
  ∧ (content s = content c ∧ likes s = likes c ∧ replies s = replies c).
Proof.
  destruct c. unfold approve, reject, markAsSpam, save, stampCreated, preSave.
  destruct reason as [[|u text]|], isNew0, isModified_content0, createdAt0;
    simpl; unfold autoStatus;
    repeat match goal with |- context [70 <=? ?x] => destruct (70 <=? x) end;
    repeat split; reflexivity.
Qed.

(** C3, as stated, fails on a comment that was never saved: the save
    inside [approve] is its first, so the middleware scores it (here 75)
    and its auto-reject step replaces [approved] by [spam]. It fails on
    a stored comment with an unsaved change of content, which the same
    save marks as edited. And it fails on any stored comment in that the
    save rewrites [updatedAt] (here from 5 to 10). All three comments are
    ones the operations produce. *)
Lemma approve_runs_the_middleware :
  (let a := approve asciiRuntime 10 9 None spammyDraft in
   status spammyDraft = pending ∧ spamScore spammyDraft = 0
   ∧ status a = spam ∧ spamScore a = 75)
  ∧ (let a := approve asciiRuntime 10 9 None editedHello in
     isEdited editedHello = false ∧ editedAt editedHello = None
     ∧ isEdited a = true ∧ editedAt a = Some 10)
  ∧ (let a := approve asciiRuntime 10 9 None storedHello in
     updatedAt storedHello = Some 5 ∧ updatedAt a = Some 10)
  ∧ (reachable asciiRuntime spammyDraft
     ∧ reachable asciiRuntime editedHello
     ∧ reachable asciiRuntime storedHello)
  ∧ ¬ approve_as_specified asciiRuntime
  ∧ ¬ (∀ lower, approve_as_specified lower).
Proof.
  assert (Hno : ¬ approve_as_specified asciiRuntime).
  { intros H. destruct (H 10 9%N None spammyDraft) as [Hst _].
    vm_compute in Hst. discriminate Hst. }
  split; [vm_compute; repeat split; reflexivity|].
  split; [vm_compute; repeat split; reflexivity|].
  split; [vm_compute; repeat split; reflexivity|].
  split.
  { split; [apply reach_new|]. split.
    - apply reach_assignContent, reach_save, reach_new.
    - apply reach_save, reach_new. }
  split; [exact Hno|]. intros H. exact (Hno (H asciiRuntime)).
Qed.

(** ** Replies *)

Lemma occurrences_app r ids ids' :
  occurrences r (ids ++ ids')
  = (occurrences r ids + occurrences r ids')%nat.
Proof. unfold occurrences. rewrite filter_app, length_app. reflexivity. Qed.

Lemma occurrences_absent r ids : r ∉ ids → occurrences r ids = 0%nat.
Proof.
  intros Hr. unfold occurrences.
  induction ids as [|x ids IH]; [reflexivity|].
  rewrite not_elem_of_cons in Hr. destruct Hr as [Hx Hr].
  rewrite filter_cons, decide_False by congruence. auto.
Qed.

Lemma occurrences_NoDup r ids :
  NoDup ids → r ∈ ids → occurrences r ids = 1%nat.
Proof.
  intros Hnd Hr. induction Hnd as [|x ids Hx Hnd IH].
  - inversion Hr.
  - unfold occurrences. rewrite filter_cons.
    destruct (decide (x = r)) as [->|Hne].
    + simpl. f_equal. apply (occurrences_absent r ids Hx).
    + apply IH. apply elem_of_cons in Hr as [->|Hr]; [done | exact Hr].
Qed.

Section ReplyFacts.

Variable lower : jsString -> jsString.

(** The list [addReply] leaves. *)
Lemma addReply_replies now r c :
  replies (addReply lower now r c)
  = if bool_decide (r ∈ replies c) then replies c else replies c ++ [r].
Proof.
  unfold addReply.
  destruct (save_keeps_lists lower now
    (if negb (bool_decide (r ∈ replies c))
     then markModified (set_replies (replies c ++ [r]) c) else c))
    as [-> _].
  destruct (bool_decide (r ∈ replies c)); reflexivity.
Qed.

Lemma addReply_present now r c : r ∈ replies (addReply lower now r c).
Proof.
  rewrite addReply_replies. case_bool_decide as H; [exact H|].
  apply elem_of_app. right. apply list_elem_of_singleton. reflexivity.
Qed.

(** Adding an id that is already there amounts to a plain save. *)
Lemma addReply_again now r c :
  r ∈ replies c → addReply lower now r c = save lower now c.
Proof.
  intros H. unfold addReply. rewrite bool_decide_eq_true_2 by exact H.
  reflexivity.
Qed.

(** [replies] stays duplicate-free. *)
Lemma addReply_NoDup now r c :
  NoDup (replies c) → NoDup (replies (addReply lower now r c)).
Proof.
  intros Hnd. rewrite addReply_replies. case_bool_decide as H; [exact Hnd|].
  apply NoDup_app. split; [exact Hnd|]. split.
  - intros x Hx Hx'. apply list_elem_of_singleton in Hx'. congruence.
  - apply NoDup_singleton.
Qed.

(** No operation ever leaves an id twice in [replies]. *)
Lemma reachable_replies_NoDup c : reachable lower c → NoDup (replies c).
Proof.
  induction 1 as [id input | v c _ IH | now c _ IH | now m reason c _ IH
                  | now m reason c _ IH | now m reason c _ IH
                  | now r c _ IH | now u c _ IH].
  - apply NoDup_nil_2.
  - exact IH.
  - destruct (save_keeps_lists lower now c) as [-> _]. exact IH.
  - destruct (moderation_always lower now m reason c)
      as (_ & _ & _ & _ & (_ & _ & ->) & _). exact IH.
  - destruct (moderation_always lower now m reason c)
      as (_ & _ & _ & _ & _ & (_ & _ & ->) & _). exact IH.
  - destruct (moderation_always lower now m reason c)
      as (_ & _ & _ & _ & _ & _ & (_ & _ & ->)). exact IH.
  - apply addReply_NoDup, IH.
  - unfold toggleLike.
    match goal with
    | |- NoDup (replies (save _ _ ?x)) =>
        destruct (save_keeps_lists lower now x) as [-> _]
    end.
    destruct (List.find _ (likes c)); exact IH.
Qed.

End ReplyFacts.

(** C5. [addReply] is idempotent on every comment the model's operations
    produce: a second call with the same id changes nothing at all, the
    first call leaves [replies] alone if the id is already there and
    appends it otherwise, and after either the id occurs exactly once in
    [replies]. *)
Theorem addReply_idempotent (lower : jsString -> jsString)
    (t1 t2 : Date) (r : ObjectId) (c : Comment)
    (Hc : reachable lower c) :
  let c1 := addReply lower t1 r c in
  let c2 := addReply lower t2 r c1 in
  c2 = c1
  ∧ replies c1
    = (if bool_decide (r ∈ replies c) then replies c else replies c ++ [r])
  ∧ occurrences r (replies c1) = 1%nat
  ∧ occurrences r (replies c2) = 1%nat
  ∧ NoDup (replies c2).
Proof.
  intros c1 c2.
  assert (Hsame : c2 = c1).
  { subst c2. rewrite addReply_again by apply addReply_present.
    apply save_clean; apply save_marks. }
  assert (Hset : NoDup (replies c))
    by exact (reachable_replies_NoDup lower c Hc).
  assert (Hnd : NoDup (replies c1)) by (apply addReply_NoDup, Hset).
  assert (Hone : occurrences r (replies c1) = 1%nat).
  { apply occurrences_NoDup; [exact Hnd | apply addReply_present]. }
  split; [exact Hsame|]. split; [apply addReply_replies|].
  split; [exact Hone|]. rewrite Hsame. split; [exact Hone | exact Hnd].
Qed.

Lemma addReply_idempotent_witness :
  let c := addReply asciiRuntime 6 40 storedHello in
  let c1 := addReply asciiRuntime 7 41 c in
  let c2 := addReply asciiRuntime 8 41 c1 in
  replies c = [40]%N ∧ c2 = c1 ∧ replies c2 = [40; 41]%N
  ∧ occurrences 41 (replies c2) = 1%nat.
Proof.
  intros c c1 c2.
  assert (Hc : reachable asciiRuntime c).
  { apply reach_addReply. apply reach_save. apply reach_new. }
  destruct (addReply_idempotent asciiRuntime 7 8 41%N c Hc)
    as (Hsame & _ & _ & Hone & _).
  split; [reflexivity|]. split; [exact Hsame|].
  split; [reflexivity | exact Hone].
Defined.

(** ** Likes *)

Lemma find_like_None (u : ObjectId) (entries : list Like.t) :
  List.find (fun like => bool_decide (Like.user like = u)) entries = None
  ↔ u ∉ (Like.user <$> entries).
Proof.
  induction entries as [|e entries IH].
  - split; [intros _; apply not_elem_of_nil | reflexivity].
  - rewrite fmap_cons, not_elem_of_cons. cbn [List.find].
    case_bool_decide as He.
    + split; [discriminate | intros [Hne _]; congruence].
    + rewrite IH. split; [intros H; split; [congruence | exact H] | tauto].
Qed.

Lemma likesOfOthers_without (u : ObjectId) (entries : list Like.t) :
  u ∉ (Like.user <$> likesOfOthers u entries).
Proof.
  intros H. apply list_elem_of_fmap in H as (e & -> & He).
  apply list_elem_of_filter in He as [Hne _]. congruence.
Qed.

Lemma likesOfOthers_id (u : ObjectId) (entries : list Like.t) :
  u ∉ (Like.user <$> entries) → likesOfOthers u entries = entries.
Proof.
  intros H. unfold likesOfOthers. induction entries as [|e entries IH].
  - reflexivity.
  - rewrite fmap_cons, not_elem_of_cons in H. destruct H as [Hne H].
    rewrite filter_cons, decide_True by congruence. f_equal.
    apply IH, H.
Qed.

Section LikeFacts.

Variable lower : jsString -> jsString.

(** The list [toggleLike] leaves. *)
Lemma toggleLike_likes now u c :
  likes (toggleLike lower now u c)
  = if bool_decide (u ∈ (Like.user <$> likes c))
    then likesOfOthers u (likes c)
    else likes c ++ [Like.mk u now].
Proof.
  unfold toggleLike.
  destruct (List.find _ (likes c)) eqn:E.
  - destruct (save_keeps_lists lower now
      (markModified
         (set_likes (filter (fun like => Like.user like ≠ u) (likes c)) c)))
      as (_ & -> & _).
    rewrite bool_decide_eq_true_2; [reflexivity|].
    destruct (decide (u ∈ (Like.user <$> likes c))) as [H|H]; [exact H|].
    apply find_like_None in H. congruence.
  - destruct (save_keeps_lists lower now
      (markModified (set_likes (likes c ++ [Like.mk u now]) c)))
      as (_ & -> & _).
    apply find_like_None in E.
    rewrite bool_decide_eq_false_2 by exact E. reflexivity.
Qed.

End LikeFacts.

(** C4, as the code has it. Two calls of [toggleLike] with the same user
    restore the set of users who like the comment. If the user had no
    like, the first call appends an entry and the second removes it, so
    the list is as before. If the user had one, the first call removes
    the user's entries and the second appends a single new entry, last
    in the list and stamped with the time of the second call. *)
Theorem toggleLike_twice (lower : jsString -> jsString)
    (t1 t2 : Date) (u : ObjectId) (c : Comment) :
  let c1 := toggleLike lower t1 u c in
  let c2 := toggleLike lower t2 u c1 in
  likers c2 = likers c
  ∧ (((u ∉ likers c)
      ∧ likes c1 = likes c ++ [Like.mk u t1]
      ∧ likes c2 = likes c)
     ∨ ((u ∈ likers c)
        ∧ likes c1 = likesOfOthers u (likes c)
        ∧ likes c2 = likesOfOthers u (likes c) ++ [Like.mk u t2])).
Proof.
  intros c1 c2.
  assert (H1 := toggleLike_likes lower t1 u c).
  assert (H2 := toggleLike_likes lower t2 u c1).
  fold c1 in H1. fold c2 in H2. unfold likers.
  destruct (decide (u ∈ (Like.user <$> likes c))) as [Hu|Hu].
  - (* the user had a like *)
    rewrite bool_decide_eq_true_2 in H1 by exact Hu.
    rewrite H1 in H2.
    rewrite bool_decide_eq_false_2 in H2 by apply likesOfOthers_without.
    split.
    + rewrite H2. apply set_eq. intros v.
      rewrite !elem_of_list_to_set, fmap_app, elem_of_app.
      rewrite !list_elem_of_fmap. split.
      * intros [(e & -> & He)|Hv].
        -- apply list_elem_of_filter in He as [_ He]. eauto.
        -- destruct Hv as (e & -> & He).
           apply list_elem_of_singleton in He. subst e.
           apply list_elem_of_fmap in Hu. exact Hu.
      * intros (e & -> & He).
        destruct (decide (Like.user e = u)) as [Heq|Hne].
        -- right. exists (Like.mk u t2). split; [exact Heq|].
           apply list_elem_of_singleton. reflexivity.
        -- left. exists e. split; [reflexivity|].
           apply list_elem_of_filter. split; assumption.
    + right. rewrite elem_of_list_to_set. auto.
  - (* the user had none *)
    assert (Hothers : likesOfOthers u (likes c ++ [Like.mk u t1]) = likes c).
    { unfold likesOfOthers. rewrite filter_app.
      fold (likesOfOthers u (likes c)). rewrite likesOfOthers_id by exact Hu.
      rewrite filter_cons, decide_False by (simpl; tauto).
      rewrite filter_nil. apply app_nil_r. }
    rewrite bool_decide_eq_false_2 in H1 by exact Hu.
    rewrite H1 in H2. rewrite bool_decide_eq_true_2 in H2.
    + rewrite Hothers in H2. split; [rewrite H2; reflexivity|].
      left. rewrite elem_of_list_to_set. auto.
    + rewrite fmap_app. apply elem_of_app. right.
      apply list_elem_of_singleton. reflexivity.
Qed.

(** C4, as stated, fails when the user already had a like: their entry
    of instant 100 is not in the list after the two calls, which holds a
    new entry instead. *)
Lemma toggleLike_twice_renews_entry :
  (let c2 := toggleLike asciiRuntime 300 7
               (toggleLike asciiRuntime 200 7 likedOnce) in
   likes likedOnce = [Like.mk 7 100]
   ∧ likes c2 = [Like.mk 7 300]
   ∧ Like.mk 7 100 ∉ likes c2)
  ∧ reachable asciiRuntime likedOnce
  ∧ ¬ likes_restored_as_specified asciiRuntime
  ∧ ¬ (∀ lower, likes_restored_as_specified lower).
Proof.
  assert (Hno : ¬ likes_restored_as_specified asciiRuntime).
  { intros H. specialize (H 200 300 7%N likedOnce).
    vm_compute in H. discriminate H. }
  split.
  - split; [reflexivity|]. split; [reflexivity|].
    intros H. vm_compute in H.
    apply list_elem_of_singleton in H. discriminate H.
  - split; [apply reach_toggleLike, reach_save, reach_new|].
    split; [exact Hno|]. intros H. exact (Hno (H asciiRuntime)).
Qed.

(** ** The approved-comments query *)

#[global] Instance dateLe_trans : Transitive dateLe.
Proof. intros [x|] [y|] [z|]; simpl; try tauto; lia. Qed.

#[global] Instance dateLe_total : Total dateLe.
Proof. intros [x|] [y|]; simpl; try tauto; lia. Qed.

#[global] Instance oldestFirst_trans : Transitive oldestFirst.
Proof. intros a b c. unfold oldestFirst. apply dateLe_trans. Qed.

#[global] Instance oldestFirst_total : Total oldestFirst.
Proof. intros a b. unfold oldestFirst. apply dateLe_total. Qed.

#[global] Instance newestFirst_trans : Transitive newestFirst.
Proof.
  intros a b c Hab Hbc. unfold newestFirst in *.
  exact (dateLe_trans _ _ _ Hbc Hab).
Qed.

#[global] Instance newestFirst_total : Total newestFirst.
Proof. intros a b. unfold newestFirst. apply dateLe_total. Qed.

Lemma doc_populateReplies (coll l : list Comment) :
  doc <$> (populateReplies coll <$> l) = l.
Proof.
  induction l as [|c l IH]; [reflexivity|].
  rewrite !fmap_cons, IH. reflexivity.
Qed.

(** C10. The query returns exactly the comments of the collection that
    belong to the post, are approved and have no parent, newest first;
    each comes with exactly the documents its [replies] refer to that
    are approved themselves, oldest first. *)
Theorem findApprovedByPost_spec (coll : list Comment) (post : ObjectId) :
  let res := findApprovedByPost coll post in
  (doc <$> res) ≡ₚ filter (topLevelApproved post) coll
  ∧ (∀ c, c ∈ (doc <$> res)
          ↔ c ∈ coll ∧ postId c = post ∧ status c = approved
            ∧ parentComment c = None)
  ∧ StronglySorted newestFirst (doc <$> res)
  ∧ Forall
      (fun r =>
         populatedReplies r ≡ₚ filter (approvedReplyOf (doc r)) coll
         ∧ (∀ d, d ∈ populatedReplies r
                 ↔ d ∈ coll ∧ _id d ∈ replies (doc r) ∧ status d = approved)
         ∧ StronglySorted oldestFirst (populatedReplies r))
      res.
Proof.
  intros res. subst res. unfold findApprovedByPost.
  rewrite doc_populateReplies.
  assert (Hperm :
    merge_sort newestFirst (filter (topLevelApproved post) coll)
    ≡ₚ filter (topLevelApproved post) coll) by apply merge_sort_Permutation.
  split; [exact Hperm|]. split.
  - intros c. rewrite Hperm, list_elem_of_filter.
    unfold topLevelApproved. tauto.
  - split; [apply StronglySorted_merge_sort; apply _|].
    apply Forall_fmap, Forall_forall. intros c _. simpl.
    assert (Hreplies :
      merge_sort oldestFirst (filter (approvedReplyOf c) coll)
      ≡ₚ filter (approvedReplyOf c) coll) by apply merge_sort_Permutation.
    split; [exact Hreplies|]. split.
    + intros d. rewrite Hreplies, list_elem_of_filter.
      unfold approvedReplyOf. tauto.
    + apply StronglySorted_merge_sort; apply _.
Qed.

(** On the sample collection the query for post 2 returns comment 5,
    then comment 1 with the replies 4 and 2; the pending reply 3 does not
    surface. *)
Example findApprovedByPost_run :
  (fun r => (_id (doc r), _id <$> populatedReplies r))
    <$> findApprovedByPost sampleCollection 2
  = [(5, []); (1, [4; 2])]%N.
Proof. vm_compute. reflexivity. Qed.


(** * Further properties of the model *)

(** ** The heuristic *)

(** X1. Saving twice is saving once: a second save of a document that
    was just saved, with nothing assigned in between, changes nothing,
    whatever the state of the document before the first save. *)
Theorem save_idempotent (lower : jsString -> jsString)
    (t1 t2 : Date) (c : Comment) :
  save lower t2 (save lower t1 c) = save lower t1 c.
Proof. apply save_clean; apply save_marks. Qed.

Lemma rawSpamScore_step_of_five (lower : jsString -> jsString)
    (content : jsString) :
  (5 | rawSpamScore lower content).
Proof.
  rewrite rawSpamScore_sum.
  unfold linkRule, capsRule, repeatRule, spamWordsRule.
  rewrite forEach_add.
  set (n := Z.of_nat (length (filter _ spamWords))).
  apply Z.divide_add_r; [apply Z.divide_add_r; [apply Z.divide_add_r|]|].
  - destruct (2 <? _)%nat, (5 <? _)%nat;
      [exists 16 | exists 6 | exists 10 | exists 0]; reflexivity.
  - destruct (_ <? _)%nat; [exists 4 | exists 0]; reflexivity.
  - destruct (test _ _); [exists 3 | exists 0]; reflexivity.
  - exists (5 * n). lia.
Qed.

(** X2. Every contribution is a multiple of 5, and so is the clamp: the
    score is a multiple of 5, so it is at most 65 or at least 70, and
    the same holds of what the first save stores. No content scores 66
    to 69. *)
Theorem spamScore_step_of_five (lower : jsString -> jsString) :
  (∀ content,
     (5 | computeSpamScore lower content)
     ∧ (computeSpamScore lower content <= 65
        ∨ 70 <= computeSpamScore lower content))
  ∧ (∀ now id input,
       let c := save lower now (newComment lower id input) in
       spamScore c <= 65 ∨ 70 <= spamScore c).
Proof.
  assert (Hall : ∀ content,
    (5 | computeSpamScore lower content)
    ∧ (computeSpamScore lower content <= 65
       ∨ 70 <= computeSpamScore lower content)).
  { intros content.
    assert (Hdiv : (5 | computeSpamScore lower content)).
    { unfold computeSpamScore.
      destruct (Z.min_spec (rawSpamScore lower content) 100)
        as [[_ ->]|[_ ->]].
      - apply rawSpamScore_step_of_five.
      - exists 20. reflexivity. }
    split; [exact Hdiv|]. destruct Hdiv as [k Hk]. lia. }
  split; [exact Hall|].
  intros now id input c. subst c. rewrite save_new_spamScore. apply Hall.
Qed.

Lemma startsWith_prefix (p s : jsString) :
  startsWith p s = true ↔ ∃ post, s = p ++ post.
Proof.
  revert s. induction p as [|a p IH]; intros s; simpl.
  - split; [intros _; exists s; reflexivity | reflexivity].
  - destruct s as [|b s].
    + split; [discriminate | intros [post H]; discriminate].
    + rewrite andb_true_iff, N.eqb_eq, IH. split.
      * intros [-> [post ->]]. exists post. reflexivity.
      * intros [post H]. injection H as -> ->. eauto.
Qed.

Lemma startsWith_length (p s : jsString) :
  startsWith p s = true → (length p <= length s)%nat.
Proof.
  intros H. apply startsWith_prefix in H as [post ->].
  rewrite length_app. lia.
Qed.

Lemma linkRe_length (s : jsString) (n : nat) :
  linkRe s = Some n → (7 <= n <= length s)%nat.
Proof.
  unfold linkRe.
  destruct (startsWith (lit "https://") s) eqn:E8.
  - intros [= <-]. apply startsWith_length in E8. simpl in E8. lia.
  - destruct (startsWith (lit "http://") s) eqn:E7; [|discriminate].
    intros [= <-]. apply startsWith_length in E7. simpl in E7. lia.
Qed.

Lemma matchAllCount_linkRe (skip : nat) (s : jsString) :
  (7 * matchAllCount linkRe skip s <= length s - skip)%nat.
Proof.
  revert skip. induction s as [|u t IH]; intros skip.
  - simpl. lia.
  - cbn [matchAllCount]. destruct skip as [|k].
    + destruct (linkRe (u :: t)) as [n|] eqn:E.
      * apply linkRe_length in E. simpl length in *.
        specialize (IH (pred n)). lia.
      * specialize (IH 0%nat). simpl length. lia.
    + specialize (IH k). simpl length. lia.
Qed.

(** X3. The matches of the link expression do not overlap and each one
    covers at least 7 code units: a content holds at most a seventh of
    its length in links, so one shorter than 21 code units gets nothing
    from the link rule and one shorter than 42 gets at most 30. *)
Theorem links_need_room (content : jsString) :
  (7 * linkCount content <= length content)%nat
  ∧ (linkRule content 0 = 0 ∨ (21 <= length content)%nat)
  ∧ (linkRule content 0 <= 30 ∨ (42 <= length content)%nat).
Proof.
  pose proof (matchAllCount_linkRe 0 content) as H.
  fold (linkCount content) in H.
  split; [lia|]. unfold linkRule.
  destruct (Nat.ltb_spec 2 (linkCount content));
    destruct (Nat.ltb_spec 5 (linkCount content));
    split; (try (left; lia)); right; lia.
Qed.

Lemma matchAllCount_upperRe (s : jsString) :
  matchAllCount upperRe 0 s = upperCount s.
Proof.
  unfold upperCount. induction s as [|u t IH]; [reflexivity|].
  cbn [matchAllCount upperRe filter list_filter].
  destruct (isUpperAZ u); simpl; [f_equal|]; exact IH.
Qed.

(** X4. The global match of [/[A-Z]/] counts the code units A to Z, one
    by one: the capitals rule adds 20 exactly when ten times their number
    exceeds three times the length, and never without a capital. *)
Theorem capsRule_counts_capitals (content : jsString) (acc : Z) :
  matchAllCount upperRe 0 content = upperCount content
  ∧ (upperCount content <= length content)%nat
  ∧ (((3 * length content < 10 * upperCount content)%nat
      ∧ capsRule content acc = acc + 20)
     ∨ ((10 * upperCount content <= 3 * length content)%nat
        ∧ capsRule content acc = acc)).
Proof.
  split; [apply matchAllCount_upperRe|].
  split; [apply length_filter|].
  unfold capsRule. rewrite matchAllCount_upperRe.
  destruct (Nat.ltb_spec (3 * length content) (10 * upperCount content));
    [left | right]; split; trivial.
Qed.

Lemma includes_substring (s w : jsString) :
  includes s w = true ↔ isSubstring w s.
Proof.
  unfold isSubstring. induction s as [|u t IH]; cbn [includes].
  - rewrite orb_false_r, startsWith_prefix. split.
    + intros [post H]. exists [], post. exact H.
    + intros (pre & post & H). symmetry in H.
      apply app_eq_nil in H as [-> H]. exists post. symmetry. exact H.
  - rewrite orb_true_iff, startsWith_prefix, IH. split.
    + intros [[post H]|(pre & post & ->)].
      * exists [], post. exact H.
      * exists (u :: pre), post. reflexivity.
    + intros (pre & post & H). destruct pre as [|v pre].
      * left. exists post. exact H.
      * right. injection H as -> ->. eauto.
Qed.

#[global] Instance isSubstring_dec (w s : jsString) :
  Decision (isSubstring w s).
Proof.
  destruct (includes s w) eqn:E.
  - left. apply includes_substring, E.
  - right. intros H. apply includes_substring in H. congruence.
Defined.

(** X5. The denylist rule adds 25 for each of the six terms that occurs
    as a contiguous piece of the lower-cased content, whatever else
    surrounds it (a term inside a longer word counts), and so at most
    150. *)
Theorem spamWordsRule_counts_substrings (lower : jsString -> jsString)
    (content : jsString) (acc : Z) :
  let found :=
    filter (fun w => isSubstring w (toLowerCase lower content)) spamWords in
  spamWordsRule lower content acc = acc + 25 * Z.of_nat (length found)
  ∧ (length found <= 6)%nat.
Proof.
  intros found. subst found. split.
  - unfold spamWordsRule. rewrite forEach_add. do 4 f_equal.
    apply list_filter_iff. intros w. apply includes_substring.
  - apply (length_filter _ spamWords).
Qed.

Lemma matchAllCount_linkRe_starts (n : nat) (s : jsString) :
  (length s <= n)%nat → matchAllCount linkRe 0 s = startCount linkRe s.
Proof.
  revert s. induction n as [|n IH]; intros s Hlen.
  - destruct s; [reflexivity | simpl in Hlen; lia].
  - destruct s as [|u t]; [reflexivity|].
    cbn [matchAllCount startCount].
    destruct (linkRe (u :: t)) as [k|] eqn:E.
    + unfold linkRe in E.
      change (lit "https://")
        with [104; 116; 116; 112; 115; 58; 47; 47]%N in E.
      change (lit "http://") with [104; 116; 116; 112; 58; 47; 47]%N in E.
      destruct (startsWith [104; 116; 116; 112; 115; 58; 47; 47]%N (u :: t))
        eqn:E8.
      * apply startsWith_prefix in E8 as [post Hs].
        injection E as <-. simpl in Hs. simplify_eq.
        simpl length in Hlen. cbn. f_equal. apply IH. lia.
      * destruct (startsWith [104; 116; 116; 112; 58; 47; 47]%N (u :: t))
          eqn:E7; [|discriminate].
        apply startsWith_prefix in E7 as [post Hs].
        injection E as <-. simpl in Hs. simplify_eq.
        simpl length in Hlen. cbn. f_equal. apply IH. lia.
    + simpl. apply IH. simpl in Hlen. lia.
Qed.

(** X19. The link count is the number of positions of the content at
    which [http://] or [https://] starts, in exactly this lower-case
    spelling: no occurrence is lost to the resumption of the global
    search after a match, and none is counted twice. *)
Theorem linkCount_counts_starts (content : jsString) :
  linkCount content = startCount linkRe content
  ∧ linkCount (lit "HTTP://a.com Http://b.com hTTps://c.com") = 0%nat.
Proof.
  split; [|reflexivity].
  apply (matchAllCount_linkRe_starts (length content)). lia.
Qed.

Lemma computeSpamScore_range (lower : jsString -> jsString) content :
  0 <= computeSpamScore lower content <= 100.
Proof.
  unfold computeSpamScore.
  pose proof (rawSpamScore_nonneg lower content). lia.
Qed.

Lemma autoStatus_cases score st :
  (70 <= score ∧ autoStatus score st = spam)
  ∨ (score < 70 ∧ autoStatus score st = st).
Proof. unfold autoStatus. destruct (Z.leb_spec 70 score); auto. Qed.

(** What a save does to each path the middleware or the store writes. *)
Lemma save_fields (lower : jsString -> jsString) now c :
  let c' := save lower now c in
  spamScore c'
  = (if isNew c then computeSpamScore lower (content c) else spamScore c)
  ∧ status c'
    = (if isNew c
       then autoStatus (computeSpamScore lower (content c)) (status c)
       else status c)
  ∧ createdAt c'
    = (if isNew c then Some (default now (createdAt c)) else createdAt c)
  ∧ isEdited c' = (isEdited c || (isModified_content c && negb (isNew c)))
  ∧ editedAt c'
    = (if isModified_content c && negb (isNew c) then Some now
       else editedAt c)
  ∧ moderatedBy c' = moderatedBy c
  ∧ moderatedAt c' = moderatedAt c
  ∧ moderationReason c' = moderationReason c
  ∧ isNew c' = false
  ∧ isModified_content c' = false
  ∧ sameIdentity c c'.
Proof.
  destruct c as [? ? ? ? ? ? ? ? ed ? ? ? ? ? ? ? ? ? cr ? nw md mo].
  unfold sameIdentity.
  destruct nw, md, mo, cr, ed; repeat split; reflexivity.
Qed.

(** Rewrites the paths of a saved document in the goal. *)
Ltac after_save lower :=
  match goal with
  | |- context [save lower ?now ?c0] =>
      let H := fresh in
      pose proof (save_fields lower now c0) as H; cbv zeta in H;
      destruct H as (-> & -> & -> & -> & -> & -> & -> & -> & -> & _ & _)
  end.

Lemma reachable_scalar_invariant (lower : jsString -> jsString) c :
  reachable lower c →
  0 <= spamScore c <= 100
  ∧ (isNew c = true →
     status c = pending ∧ spamScore c = 0 ∧ moderatedBy c = None
     ∧ createdAt c = None ∧ isEdited c = false ∧ editedAt c = None)
  ∧ (isNew c = false → createdAt c ≠ None)
  ∧ (moderatedBy c = None → status c = autoStatus (spamScore c) pending)
  ∧ (moderatedBy c = None ↔ moderatedAt c = None)
  ∧ (moderatedBy c = None → moderationReason c = None)
  ∧ (moderatedBy c ≠ None → status c ≠ pending)
  ∧ (isEdited c = true ↔ editedAt c ≠ None).
Proof.
  induction 1 as [id input | v c _ IH | now c _ IH | now m reason c _ IH
                  | now m reason c _ IH | now m reason c _ IH
                  | now r c _ IH | now u c _ IH].
  1: { simpl. unfold autoStatus. simpl. repeat split; try done; lia. }
  1: { destruct c. simpl in *. exact IH. }
  all: unfold approve, reject, markAsSpam, addReply, toggleLike,
         assignModerationReason.
  all: after_save lower.
  all: try (destruct reason as [[|? ?]|]).
  all: try (destruct (bool_decide _)).
  all: try (destruct (List.find _ _)).
  all: simpl.
  all: destruct IH as (Hr & Hnew & Hcr & Hauto & Hmod & Hreason & Hpend & Hed).
  all: pose proof (computeSpamScore_range lower (content c)).
  all: destruct (isNew c) eqn:En;
         [destruct Hnew as (Hs & Hsc & Hm & Hc & He & Hea); [reflexivity|];
          rewrite ?Hs, ?Hc, ?He, ?Hea, ?andb_false_r
         |rewrite ?andb_true_r; specialize (Hcr eq_refl)].
  all: simpl.
  all: repeat split; try done; try lia; try tauto.
  all: try (intros Hm'; apply Hpend in Hm'; congruence).
  all: try (destruct (isModified_content c), (isEdited c); simpl;
            intuition congruence).
  all: repeat match goal with
       | |- context [autoStatus ?x ?st] =>
           destruct (autoStatus_cases x st) as [[? ->]|[? ->]]
       end.
  all: try done.
Qed.

(** ** What holds of every comment the operations produce *)

(** X6. On every comment the operations produce, the stored score lies
    between 0 and 100, and as long as no moderator has acted the status
    is the one the score dictates: [spam] from 70 on, [pending] below. *)
Theorem unmoderated_status_follows_score (lower : jsString -> jsString)
    (c : Comment) (Hc : reachable lower c) :
  0 <= spamScore c <= 100
  ∧ (moderatedBy c ≠ None
     ∨ (70 <= spamScore c ∧ status c = spam)
     ∨ (spamScore c < 70 ∧ status c = pending)).
Proof.
  destruct (reachable_scalar_invariant lower c Hc)
    as (Hr & _ & _ & Hauto & _).
  split; [exact Hr|].
  destruct (moderatedBy c) as [m|]; [left; discriminate|].
  right. rewrite (Hauto eq_refl).
  destruct (autoStatus_cases (spamScore c) pending) as [[? ->]|[? ->]];
    auto.
Qed.

(** X7. Moderator and instant are written together and never erased:
    [moderatedBy] is unset exactly when [moderatedAt] is, an unmoderated
    comment has no moderation reason and is [pending] or auto-flagged
    [spam], and a comment that is [approved] or [rejected] carries its
    moderator. *)
Theorem moderation_metadata_consistent (lower : jsString -> jsString)
    (c : Comment) (Hc : reachable lower c) :
  (moderatedBy c = None ↔ moderatedAt c = None)
  ∧ ((moderatedBy c = None ∧ moderationReason c = None
      ∧ (status c = pending ∨ status c = spam))
     ∨ (moderatedBy c ≠ None ∧ status c ≠ pending)).
Proof.
  destruct (reachable_scalar_invariant lower c Hc)
    as (_ & _ & _ & Hauto & Hmod & Hreason & Hpend & _).
  split; [exact Hmod|].
  destruct (moderatedBy c) as [m|] eqn:E.
  - right. split; [discriminate|]. apply Hpend. discriminate.
  - left. split; [reflexivity|]. split; [apply Hreason; reflexivity|].
    rewrite (Hauto eq_refl).
    destruct (autoStatus_cases (spamScore c) pending) as [[? ->]|[? ->]];
      auto.
Qed.

(** X8. The creation stamp is there exactly once the comment was saved,
    and the edit mark and the edit instant go together; a comment that
    was never saved is [pending], unscored, unmoderated and unedited. *)
Theorem stamps_consistent (lower : jsString -> jsString)
    (c : Comment) (Hc : reachable lower c) :
  (isNew c = true ↔ createdAt c = None)
  ∧ (isEdited c = true ↔ editedAt c ≠ None)
  ∧ (isNew c = false
     ∨ (status c = pending ∧ spamScore c = 0 ∧ moderatedBy c = None
        ∧ isEdited c = false)).
Proof.
  destruct (reachable_scalar_invariant lower c Hc)
    as (_ & Hnew & Hcr & _ & _ & _ & _ & Hed).
  split; [|split; [exact Hed|]].
  - destruct (isNew c).
    + split; [intros _; apply Hnew; reflexivity | reflexivity].
    + split; [discriminate | intros H; destruct (Hcr eq_refl H)].
  - destruct (isNew c); [right | left; reflexivity].
    destruct (Hnew eq_refl) as (? & ? & ? & _ & ? & _). auto.
Qed.

Lemma reachable_busyHello : reachable asciiRuntime busyHello.
Proof.
  unfold busyHello.
  apply reach_toggleLike, reach_approve, reach_reject, reach_save.
  apply reach_assignContent. unfold storedHello.
  apply reach_save, reach_new.
Defined.

Lemma unmoderated_status_follows_score_witness :
  0 <= spamScore storedHello <= 100
  ∧ (moderatedBy storedHello ≠ None
     ∨ (70 <= spamScore storedHello ∧ status storedHello = spam)
     ∨ (spamScore storedHello < 70 ∧ status storedHello = pending)).
Proof.
  apply (unmoderated_status_follows_score asciiRuntime storedHello).
  unfold storedHello. apply reach_save, reach_new.
Defined.

Lemma moderation_metadata_consistent_witness :
  (moderatedBy busyHello = None ↔ moderatedAt busyHello = None)
  ∧ ((moderatedBy busyHello = None ∧ moderationReason busyHello = None
      ∧ (status busyHello = pending ∨ status busyHello = spam))
     ∨ (moderatedBy busyHello ≠ None ∧ status busyHello ≠ pending)).
Proof.
  apply (moderation_metadata_consistent asciiRuntime busyHello).
  apply reachable_busyHello.
Defined.

Lemma stamps_consistent_witness :
  (isNew busyHello = true ↔ createdAt busyHello = None)
  ∧ (isEdited busyHello = true ↔ editedAt busyHello ≠ None)
  ∧ (isNew busyHello = false
     ∨ (status busyHello = pending ∧ spamScore busyHello = 0
        ∧ moderatedBy busyHello = None ∧ isEdited busyHello = false)).
Proof.
  apply (stamps_consistent asciiRuntime busyHello).
  apply reachable_busyHello.
Defined.

(** ** Trimming *)

Lemma trimStart_head (s : jsString) u t :
  trimStart s = u :: t → isWhiteSpace u = false.
Proof.
  induction s as [|v s IH]; simpl; [discriminate|].
  destruct (isWhiteSpace v) eqn:E; [exact IH|].
  intros [= <- _]. exact E.
Qed.

Lemma trimStart_fixed (s : jsString) :
  (∀ u t, s = u :: t → isWhiteSpace u = false) → trimStart s = s.
Proof.
  destruct s as [|v s]; [reflexivity|]. intros H. simpl.
  rewrite (H v s eq_refl). reflexivity.
Qed.

Lemma trimStart_suffix (s : jsString) : ∃ pre, s = pre ++ trimStart s.
Proof.
  induction s as [|v s [pre IH]]; simpl.
  - exists []. reflexivity.
  - destruct (isWhiteSpace v).
    + exists (v :: pre). simpl. f_equal. exact IH.
    + exists []. reflexivity.
Qed.

Lemma trim_last (s pre : jsString) u :
  trim s = pre ++ [u] → isWhiteSpace u = false.
Proof.
  unfold trim, trimEnd. intros H.
  apply (f_equal (@rev _)) in H.
  rewrite rev_involutive, rev_app_distr in H. simpl in H.
  exact (trimStart_head _ _ _ H).
Qed.

Lemma trim_head (s t : jsString) u :
  trim s = u :: t → isWhiteSpace u = false.
Proof.
  unfold trim, trimEnd. intros H.
  apply (f_equal (@rev _)) in H. rewrite rev_involutive in H. simpl in H.
  destruct (trimStart_suffix (rev (trimStart s))) as [pre Hpre].
  rewrite H in Hpre. apply (f_equal (@rev _)) in Hpre.
  rewrite rev_involutive, rev_app_distr, rev_app_distr in Hpre.
  rewrite rev_involutive in Hpre. simpl in Hpre.
  exact (trimStart_head _ _ _ Hpre).
Qed.

Lemma trim_fixed (s : jsString) :
  (∀ u t, s = u :: t → isWhiteSpace u = false) →
  (∀ pre u, s = pre ++ [u] → isWhiteSpace u = false) →
  trim s = s.
Proof.
  intros Hhead Hlast. unfold trim, trimEnd.
  rewrite (trimStart_fixed s Hhead), trimStart_fixed.
  - apply rev_involutive.
  - intros u t H. apply (f_equal (@rev _)) in H.
    rewrite rev_involutive in H. simpl in H. exact (Hlast _ _ H).
Qed.

Lemma trim_idempotent (s : jsString) : trim (trim s) = trim s.
Proof.
  apply trim_fixed.
  - intros u t H. exact (trim_head _ _ _ H).
  - intros pre u H. exact (trim_last _ _ _ H).
Qed.

Lemma reachable_trimmed (lower : jsString -> jsString) c :
  reachable lower c →
  trim (content c) = content c
  ∧ (∀ r, moderationReason c = Some r → trim r = r).
Proof.
  induction 1 as [id input | v c _ IH | now c _ IH | now m reason c _ IH
                  | now m reason c _ IH | now m reason c _ IH
                  | now r c _ IH | now u c _ IH].
  1: { split; [apply trim_idempotent | discriminate]. }
  1: { destruct c. simpl in *. split; [apply trim_idempotent | apply IH]. }
  all: unfold approve, reject, markAsSpam, addReply, toggleLike,
         assignModerationReason, orElse.
  all: match goal with
       | |- context [save ?lw ?now ?c0] =>
           destruct (save_keeps_lists lw now c0) as (_ & _ & ->);
           destruct (save_fields lw now c0)
             as (_ & _ & _ & _ & _ & _ & _ & -> & _)
       end.
  all: try (destruct reason as [[|? ?]|]).
  all: try (destruct (bool_decide _)).
  all: try (destruct (List.find _ _)).
  all: simpl.
  all: split; [exact (proj1 IH)|].
  all: try exact (proj2 IH).
  all: intros r' [= <-]; try apply trim_idempotent; reflexivity.
Qed.

(** X9. The content of every comment the operations produce is trimmed:
    it neither starts nor ends with white space or a line break, and
    trimming it again changes nothing. The same holds of a stored
    moderation reason. *)
Theorem content_is_trimmed (lower : jsString -> jsString)
    (c : Comment) (Hc : reachable lower c) :
  trim (content c) = content c
  ∧ (∀ u t, content c = u :: t → isWhiteSpace u = false)
  ∧ (∀ pre u, content c = pre ++ [u] → isWhiteSpace u = false)
  ∧ (∀ r, moderationReason c = Some r → trim r = r).
Proof.
  destruct (reachable_trimmed lower c Hc) as [Htrim Hreason].
  split; [exact Htrim|]. split; [|split; [|exact Hreason]].
  - intros u t H. rewrite <- Htrim in H. exact (trim_head _ _ _ H).
  - intros pre u H. rewrite <- Htrim in H. exact (trim_last _ _ _ H).
Qed.

Lemma content_is_trimmed_witness :
  content busyHello = lit "hello again"
  ∧ trim (content busyHello) = content busyHello.
Proof.
  split; [reflexivity|].
  exact (proj1 (content_is_trimmed asciiRuntime busyHello
                  reachable_busyHello)).
Defined.

(** ** Likes *)

Lemma likesOfOthers_NoDup (u : ObjectId) (entries : list Like.t) :
  NoDup (Like.user <$> entries) →
  NoDup (Like.user <$> likesOfOthers u entries).
Proof.
  unfold likesOfOthers. induction entries as [|e entries IH].
  - intros _. apply NoDup_nil_2.
  - rewrite fmap_cons, NoDup_cons. intros [He Hnd].
    rewrite filter_cons. destruct (decide (Like.user e ≠ u)); [|auto].
    rewrite fmap_cons. apply NoDup_cons. split; [|auto].
    intros H. apply He. apply list_elem_of_fmap in H as (e' & -> & H').
    apply list_elem_of_filter in H' as [_ H'].
    apply list_elem_of_fmap. eauto.
Qed.

Lemma likesOfOthers_length (u : ObjectId) (entries : list Like.t) :
  NoDup (Like.user <$> entries) → u ∈ (Like.user <$> entries) →
  S (length (likesOfOthers u entries)) = length entries.
Proof.
  unfold likesOfOthers. induction entries as [|e entries IH].
  - intros _ H. inversion H.
  - rewrite fmap_cons, NoDup_cons. intros [He Hnd] Hu.
    rewrite filter_cons. destruct (decide (Like.user e ≠ u)) as [Hne|Heq].
    + simpl. f_equal. apply IH; [exact Hnd|].
      apply elem_of_cons in Hu as [Hu|Hu]; [congruence | exact Hu].
    + assert (Like.user e = u) as Heu
        by (destruct (decide (Like.user e = u)); [done | contradiction]).
      simpl. f_equal. fold (likesOfOthers u entries).
      rewrite likesOfOthers_id; [reflexivity | congruence].
Qed.

Lemma reachable_likes_NoDup (lower : jsString -> jsString) c :
  reachable lower c → NoDup (Like.user <$> likes c).
Proof.
  induction 1 as [id input | v c _ IH | now c _ IH | now m reason c _ IH
                  | now m reason c _ IH | now m reason c _ IH
                  | now r c _ IH | now u c _ IH].
  - apply NoDup_nil_2.
  - destruct c. exact IH.
  - destruct (save_keeps_lists lower now c) as (_ & -> & _). exact IH.
  - destruct (moderation_always lower now m reason c)
      as (_ & _ & _ & _ & (_ & -> & _) & _). exact IH.
  - destruct (moderation_always lower now m reason c)
      as (_ & _ & _ & _ & _ & (_ & -> & _) & _). exact IH.
  - destruct (moderation_always lower now m reason c)
      as (_ & _ & _ & _ & _ & _ & (_ & -> & _)). exact IH.
  - unfold addReply.
    match goal with
    | |- context [save ?lw ?t ?c0] =>
        destruct (save_keeps_lists lw t c0) as (_ & -> & _)
    end.
    destruct (negb _); exact IH.
  - rewrite toggleLike_likes. case_bool_decide as Hu.
    + apply likesOfOthers_NoDup, IH.
    + rewrite fmap_app. apply NoDup_app. split; [exact IH|]. split.
      * intros x Hx Hx'. apply list_elem_of_singleton in Hx'.
        simpl in Hx'. congruence.
      * apply NoDup_singleton.
Qed.

(** X10. No user ever holds two like entries on a comment the
    operations produce, so [likesCount] is the number of users who like
    it. *)
Theorem one_like_per_user (lower : jsString -> jsString)
    (c : Comment) (Hc : reachable lower c) :
  NoDup (Like.user <$> likes c) ∧ likesCount c = size (likers c).
Proof.
  pose proof (reachable_likes_NoDup lower c Hc) as Hnd.
  split; [exact Hnd|].
  unfold likesCount, likers.
  rewrite size_list_to_set by exact Hnd. rewrite length_fmap. reflexivity.
Qed.

(** X11. On such a comment a call of [toggleLike] moves [likesCount] by
    exactly one, down if the user liked the comment and up if not, and
    two calls with the same user leave it as it was. *)
Theorem toggleLike_moves_count_by_one (lower : jsString -> jsString)
    (t1 t2 : Date) (u : ObjectId) (c : Comment)
    (Hc : reachable lower c) :
  let c1 := toggleLike lower t1 u c in
  let c2 := toggleLike lower t2 u c1 in
  (((u ∈ likers c) ∧ S (likesCount c1) = likesCount c)
   ∨ ((u ∉ likers c) ∧ likesCount c1 = S (likesCount c)))
  ∧ likesCount c2 = likesCount c.
Proof.
  intros c1 c2.
  pose proof (reachable_likes_NoDup lower c Hc) as Hnd.
  assert (Hc1 : reachable lower c1) by (apply reach_toggleLike, Hc).
  pose proof (reachable_likes_NoDup lower c1 Hc1) as Hnd1.
  assert (H1 := toggleLike_likes lower t1 u c).
  assert (H2 := toggleLike_likes lower t2 u c1).
  fold c1 in H1. fold c2 in H2. clearbody c2. clearbody c1.
  unfold likesCount, likers. rewrite elem_of_list_to_set.
  destruct (decide (u ∈ (Like.user <$> likes c))) as [Hu|Hu].
  - rewrite bool_decide_eq_true_2 in H1 by exact Hu.
    assert (Hlen : S (length (likes c1)) = length (likes c)).
    { rewrite H1. apply likesOfOthers_length; assumption. }
    split; [left; split; assumption|].
    rewrite bool_decide_eq_false_2 in H2.
    + rewrite H2, length_app. simpl. lia.
    + rewrite H1. apply likesOfOthers_without.
  - rewrite bool_decide_eq_false_2 in H1 by exact Hu.
    assert (Hlen : length (likes c1) = S (length (likes c))).
    { rewrite H1, length_app. simpl. lia. }
    split; [right; split; assumption|].
    assert (Hu1 : u ∈ (Like.user <$> likes c1)).
    { rewrite H1, fmap_app. apply elem_of_app. right.
      apply list_elem_of_singleton. reflexivity. }
    rewrite bool_decide_eq_true_2 in H2 by exact Hu1.
    pose proof (likesOfOthers_length u (likes c1) Hnd1 Hu1) as Hlen2.
    rewrite <- H2 in Hlen2. lia.
Qed.

Lemma one_like_per_user_witness :
  likesCount busyHello = 1%nat
  ∧ NoDup (Like.user <$> likes busyHello)
  ∧ likesCount busyHello = size (likers busyHello).
Proof.
  split; [reflexivity|].
  exact (one_like_per_user asciiRuntime busyHello reachable_busyHello).
Defined.

Lemma toggleLike_moves_count_by_one_witness :
  let c1 := toggleLike asciiRuntime 50 7 busyHello in
  let c2 := toggleLike asciiRuntime 60 7 c1 in
  likesCount busyHello = 1%nat ∧ likesCount c1 = 0%nat
  ∧ likesCount c2 = likesCount busyHello.
Proof.
  intros c1 c2. split; [reflexivity|]. split; [reflexivity|].
  exact (proj2 (toggleLike_moves_count_by_one asciiRuntime 50 60 7%N
                  busyHello reachable_busyHello)).
Defined.

(** ** Sequences of operations *)

Lemma sameIdentity_trans (a b c : Comment) :
  sameIdentity a b → sameIdentity b c → sameIdentity a c.
Proof.
  unfold sameIdentity.
  intros (? & ? & ? & ? & ? & ? & ? & ?) (? & ? & ? & ? & ? & ? & ? & ?).
  repeat split; congruence.
Qed.

(** One operation: what it keeps and what it never takes back. *)
Lemma step_effect (lower : jsString -> jsString) (c c' : Comment) :
  step lower c c' →
  sameIdentity c c'
  ∧ (isNew c = false →
     spamScore c' = spamScore c ∧ createdAt c' = createdAt c
     ∧ isNew c' = false)
  ∧ (isEdited c = true → isEdited c' = true)
  ∧ (editedAt c ≠ None → editedAt c' ≠ None)
  ∧ (moderatedBy c ≠ None → moderatedBy c' ≠ None)
  ∧ (status c ≠ pending → status c' ≠ pending).
Proof.
  intros [v c0 | now c0 | now m reason c0 | now m reason c0
          | now m reason c0 | now r c0 | now u c0].
  1: { destruct c0. unfold sameIdentity. simpl. tauto. }
  all: unfold approve, reject, markAsSpam, addReply, toggleLike,
         assignModerationReason, sameIdentity.
  all: match goal with
       | |- context [save ?lw ?t ?x] =>
           destruct (save_fields lw t x)
             as (-> & -> & -> & -> & -> & -> & _ & _ & -> & _
                 & (-> & -> & -> & -> & -> & -> & -> & ->))
       end.
  all: try (destruct reason as [[|? ?]|]).
  all: try (destruct (bool_decide _)).
  all: try (destruct (List.find _ _)).
  all: simpl.
  all: destruct (isNew c0), (isModified_content c0), (isEdited c0); simpl.
  all: repeat match goal with
       | |- context [autoStatus ?x ?st] =>
           destruct (autoStatus_cases x st) as [[? ->]|[? ->]]
       end.
  all: repeat split; try done.
Qed.

(** X12. Once a comment is stored, no sequence of content assignments,
    saves, moderation calls, replies and likes changes its score or its
    creation stamp, or makes it new again; and no sequence at all
    changes its id, post, author, parent, address, agent, flower or
    mood. *)
Theorem identity_and_score_are_fixed (lower : jsString -> jsString)
    (c c' : Comment) (Hsteps : rtc (step lower) c c') :
  sameIdentity c c'
  ∧ (isNew c = true
     ∨ (spamScore c' = spamScore c ∧ createdAt c' = createdAt c
        ∧ isNew c' = false)).
Proof.
  induction Hsteps as [c | c c1 c' Hstep _ IH].
  - split; [unfold sameIdentity; tauto|].
    destruct (isNew c); [left | right]; auto.
  - destruct (step_effect lower c c1 Hstep) as (Hid & Hfix & _).
    destruct IH as [Hid' Hfix'].
    split; [exact (sameIdentity_trans _ _ _ Hid Hid')|].
    destruct (isNew c) eqn:En; [left; reflexivity | right].
    destruct (Hfix eq_refl) as (Hs & Hc & Hn).
    destruct Hfix' as [Hn'|(Hs' & Hc' & Hn')]; [congruence|].
    repeat split; congruence.
Qed.

(** X13. No sequence of operations takes back an edit mark, an edit
    instant or a moderator, and none returns a comment to [pending] once
    it has left it. *)
Theorem marks_are_kept (lower : jsString -> jsString)
    (c c' : Comment) (Hsteps : rtc (step lower) c c') :
  (isEdited c = false ∨ isEdited c' = true)
  ∧ (editedAt c = None ∨ editedAt c' ≠ None)
  ∧ (moderatedBy c = None ∨ moderatedBy c' ≠ None)
  ∧ (status c = pending ∨ status c' ≠ pending).
Proof.
  assert (H : (isEdited c = true → isEdited c' = true)
              ∧ (editedAt c ≠ None → editedAt c' ≠ None)
              ∧ (moderatedBy c ≠ None → moderatedBy c' ≠ None)
              ∧ (status c ≠ pending → status c' ≠ pending)).
  { induction Hsteps as [c | c c1 c' Hstep _ IH]; [tauto|].
    destruct (step_effect lower c c1 Hstep) as (_ & _ & ? & ? & ? & ?).
    tauto. }
  destruct H as (He & Ha & Hm & Hs).
  split; [destruct (isEdited c); auto|].
  split; [destruct (editedAt c); [right; apply Ha; discriminate | auto]|].
  split; [destruct (moderatedBy c); [right; apply Hm; discriminate | auto]|].
  destruct (decide (status c = pending)); auto.
Qed.

Lemma steps_to_busyHello : rtc (step asciiRuntime) storedHello busyHello.
Proof.
  unfold busyHello.
  eapply rtc_r; [|exact (step_toggleLike _ _ _ _)].
  eapply rtc_r; [|exact (step_approve _ _ _ _ _)].
  eapply rtc_r; [|exact (step_reject _ _ _ _ _)].
  eapply rtc_r; [|exact (step_save _ _ _)].
  apply rtc_once. exact (step_assignContent _ _ _).
Defined.

Lemma identity_and_score_are_fixed_witness :
  isNew storedHello = false
  ∧ content busyHello ≠ content storedHello
  ∧ sameIdentity storedHello busyHello
  ∧ (isNew storedHello = true
     ∨ (spamScore busyHello = spamScore storedHello
        ∧ createdAt busyHello = createdAt storedHello
        ∧ isNew busyHello = false)).
Proof.
  split; [reflexivity|]. split; [discriminate|].
  exact (identity_and_score_are_fixed asciiRuntime storedHello busyHello
           steps_to_busyHello).
Defined.

Lemma marks_are_kept_witness :
  status storedHello = pending
  ∧ (isEdited storedHello = false ∨ isEdited busyHello = true)
  ∧ (editedAt storedHello = None ∨ editedAt busyHello ≠ None)
  ∧ (moderatedBy storedHello = None ∨ moderatedBy busyHello ≠ None)
  ∧ (status storedHello = pending ∨ status busyHello ≠ pending).
Proof.
  split; [reflexivity|].
  exact (marks_are_kept asciiRuntime storedHello busyHello
           steps_to_busyHello).
Defined.

(** ** One call of [toggleLike] *)

(** X14. One call of [toggleLike] flips the caller's membership among
    the users who like the comment and nobody else's, and leaves the
    entries of the other users as they were, in their order and with
    their instants. *)
Theorem toggleLike_flips_one_user (lower : jsString -> jsString)
    (now : Date) (u : ObjectId) (c : Comment) :
  let c' := toggleLike lower now u c in
  (u ∈ likers c' ↔ u ∉ likers c)
  ∧ (∀ v, v ≠ u → (v ∈ likers c' ↔ v ∈ likers c))
  ∧ likesOfOthers u (likes c') = likesOfOthers u (likes c).
Proof.
  intros c'. assert (H := toggleLike_likes lower now u c). fold c' in H.
  clearbody c'. unfold likers. rewrite !elem_of_list_to_set.
  assert (Hothers : ∀ v, v ≠ u →
            v ∈ (Like.user <$> likesOfOthers u (likes c))
            ↔ v ∈ (Like.user <$> likes c)).
  { intros v Hv. rewrite !list_elem_of_fmap. split.
    - intros (e & -> & He). apply list_elem_of_filter in He as [_ He]. eauto.
    - intros (e & -> & He). exists e. split; [reflexivity|].
      apply list_elem_of_filter. auto. }
  destruct (decide (u ∈ (Like.user <$> likes c))) as [Hu|Hu].
  - rewrite bool_decide_eq_true_2 in H by exact Hu. rewrite H.
    split; [|split].
    + split; [intros Hin; destruct (likesOfOthers_without u _ Hin) | tauto].
    + intros v Hv. rewrite !elem_of_list_to_set. apply Hothers, Hv.
    + apply likesOfOthers_id, likesOfOthers_without.
  - rewrite bool_decide_eq_false_2 in H by exact Hu. rewrite H.
    split; [|split].
    + split; [intros _; exact Hu|]. intros _. rewrite fmap_app.
      apply elem_of_app. right. apply list_elem_of_singleton. reflexivity.
    + intros v Hv. rewrite !elem_of_list_to_set, fmap_app, elem_of_app.
      split; [|auto]. intros [Hin|Hin]; [exact Hin|].
      apply list_elem_of_singleton in Hin. simpl in Hin. congruence.
    + unfold likesOfOthers. rewrite filter_app, filter_cons.
      rewrite decide_False by (simpl; tauto).
      rewrite filter_nil. apply app_nil_r.
Qed.

(** ** Moderation calls in a row *)

(** The paths the three transitions leave alone on a stored comment
    without unsaved change of content. *)
Lemma moderation_frame (lower : jsString -> jsString)
    (now : Date) (moderatorId : ObjectId) (reason : option jsString)
    (c : Comment) :
  isNew c = false → isModified_content c = false →
  let a := approve lower now moderatorId reason c in
  let r := reject lower now moderatorId reason c in
  let s := markAsSpam lower now moderatorId reason c in
  (sameOutsideModeration c a ∧ isNew a = false
   ∧ isModified_content a = false)
  ∧ (sameOutsideModeration c r ∧ isNew r = false
     ∧ isModified_content r = false)
  ∧ (sameOutsideModeration c s ∧ isNew s = false
     ∧ isModified_content s = false).
Proof.
  destruct c; simpl. intros -> ->.
  destruct reason as [[|u text]|]; repeat split; reflexivity.
Qed.

(** X15. On a stored comment without unsaved change of content the last
    transition wins: [reject], [markAsSpam], and [approve] with a
    reason, give the same comment whether or not another transition came
    first. Only [approve] without a reason lets something through: the
    reason the earlier transition stored. *)
Theorem last_transition_wins (lower : jsString -> jsString)
    (t1 t2 : Date) (m1 m2 : ObjectId) (r1 r2 : option jsString)
    (c : Comment)
    (Hstored : isNew c = false) (Hclean : isModified_content c = false) :
  Forall
    (fun c1 =>
       reject lower t2 m2 r2 c1 = reject lower t2 m2 r2 c
       ∧ markAsSpam lower t2 m2 r2 c1 = markAsSpam lower t2 m2 r2 c
       ∧ (truthy r2 = false
          ∨ approve lower t2 m2 r2 c1 = approve lower t2 m2 r2 c)
       ∧ approve lower t2 m2 None c1
         = set_moderationReason (moderationReason c1)
             (approve lower t2 m2 None c))
    [approve lower t1 m1 r1 c; reject lower t1 m1 r1 c;
     markAsSpam lower t1 m1 r1 c].
Proof.
  assert (Hcongr : ∀ c1, isNew c1 = false → isModified_content c1 = false →
    sameOutsideModeration c c1 →
    reject lower t2 m2 r2 c1 = reject lower t2 m2 r2 c
    ∧ markAsSpam lower t2 m2 r2 c1 = markAsSpam lower t2 m2 r2 c
    ∧ (truthy r2 = false
       ∨ approve lower t2 m2 r2 c1 = approve lower t2 m2 r2 c)
    ∧ approve lower t2 m2 None c1
      = set_moderationReason (moderationReason c1)
          (approve lower t2 m2 None c)).
  { intros c1 Hn1 Hc1. unfold sameOutsideModeration.
    destruct c, c1; simpl in *. intros Hsame.
    destruct Hsame
      as (? & ? & ? & ? & ? & ? & ? & ? & ? & ? & ? & ? & ? & ? & ? & _).
    subst. split; [|split; [|split]].
    - destruct r2 as [[|u2 x2]|]; reflexivity.
    - destruct r2 as [[|u2 x2]|]; reflexivity.
    - destruct r2 as [[|u2 x2]|];
        [left; reflexivity | right; reflexivity | left; reflexivity].
    - reflexivity. }
  destruct (moderation_frame lower t1 m1 r1 c Hstored Hclean)
    as ((Ha & Hna & Hca) & (Hr & Hnr & Hcr) & (Hs & Hns & Hcs)).
  apply List.Forall_cons; [apply Hcongr; assumption|].
  apply List.Forall_cons; [apply Hcongr; assumption|].
  apply List.Forall_cons; [apply Hcongr; assumption|].
  apply List.Forall_nil.
Qed.

Lemma last_transition_wins_witness :
  let rejected := reject asciiRuntime 20 3 None storedHello in
  let again := approve asciiRuntime 30 4 None rejected in
  status again = approved
  ∧ moderationReason again
    = Some (lit "Content violates community guidelines")
  ∧ again
    = set_moderationReason (moderationReason rejected)
        (approve asciiRuntime 30 4 None storedHello)
  ∧ markAsSpam asciiRuntime 30 4 None rejected
    = markAsSpam asciiRuntime 30 4 None storedHello.
Proof.
  intros rejected again.
  pose proof (last_transition_wins asciiRuntime 20 30 3%N 4%N None None
                storedHello eq_refl eq_refl) as H.
  apply Forall_cons in H as [_ H]. apply Forall_cons in H as [H _].
  destruct H as (_ & Hspam & _ & Happrove).
  split; [reflexivity|]. split; [reflexivity|].
  split; [exact Happrove | exact Hspam].
Defined.

(** ** The moderation queue *)

Lemma item_populatePost (posts : list Post.t) (l : list Comment) :
  item <$> (populatePost posts <$> l) = l.
Proof.
  induction l as [|c l IH]; [reflexivity|].
  rewrite !fmap_cons, IH. reflexivity.
Qed.

(** X16. The moderation queue holds exactly the comments of the
    collection whose status is [pending], newest first. Each comes with
    the title and slug of a post whose id is its [postId], or with
    nothing when the collection of posts has no such post. *)
Theorem findPendingModeration_spec (coll : list Comment)
    (posts : list Post.t) :
  let res := findPendingModeration coll posts in
  (item <$> res) ≡ₚ filter (fun c => status c = pending) coll
  ∧ (∀ c, c ∈ (item <$> res) ↔ c ∈ coll ∧ status c = pending)
  ∧ StronglySorted newestFirst (item <$> res)
  ∧ Forall
      (fun r =>
         (∀ s, post r = Some s →
               ∃ p, p ∈ posts ∧ Post._id p = postId (item r)
                    ∧ s = Post.mkSummary (Post._id p) (Post.title p)
                            (Post.slug p))
         ∧ (post r = None ↔ ∀ p, p ∈ posts → Post._id p ≠ postId (item r)))
      res.
Proof.
  intros res. subst res. unfold findPendingModeration.
  rewrite item_populatePost.
  assert (Hperm :
    merge_sort newestFirst (filter (fun c => status c = pending) coll)
    ≡ₚ filter (fun c => status c = pending) coll)
    by apply merge_sort_Permutation.
  split; [exact Hperm|]. split.
  { intros c. rewrite Hperm, list_elem_of_filter. tauto. }
  split; [apply StronglySorted_merge_sort; apply _|].
  apply Forall_fmap, Forall_forall. intros c _. simpl.
  destruct (List.find _ posts) as [p|] eqn:E; simpl.
  - apply find_some in E as [Hin Hid].
    apply bool_decide_eq_true_1 in Hid. split.
    + intros s [= <-]. exists p. split; [|split; [exact Hid|reflexivity]].
      apply list_elem_of_In, Hin.
    + split; [discriminate|]. intros H.
      destruct (H p (proj2 (list_elem_of_In _ _) Hin) Hid).
  - split; [discriminate|]. split; [|reflexivity]. intros _ p Hin Hid.
    pose proof (find_none _ _ E p (proj1 (list_elem_of_In _ _) Hin)) as Hp.
    simpl in Hp. apply bool_decide_eq_false_1 in Hp. contradiction.
Qed.

(** X17. When the collection holds comments the operations produce,
    every comment in the moderation queue is one no moderator has
    touched and whose score is below 70: a comment auto-flagged as spam
    at creation never enters the queue. *)
Theorem queue_holds_unmoderated (lower : jsString -> jsString)
    (coll : list Comment) (posts : list Post.t)
    (Hcoll : Forall (reachable lower) coll) :
  Forall
    (fun r =>
       moderatedBy (item r) = None ∧ moderatedAt (item r) = None
       ∧ moderationReason (item r) = None
       ∧ 0 <= spamScore (item r) < 70)
    (findPendingModeration coll posts).
Proof.
  apply Forall_forall. intros r Hr.
  assert (Hitem : item r ∈ (item <$> findPendingModeration coll posts)).
  { apply list_elem_of_fmap. eauto. }
  unfold findPendingModeration in Hitem.
  rewrite item_populatePost, merge_sort_Permutation in Hitem.
  apply list_elem_of_filter in Hitem as [Hpending Hin].
  rewrite Forall_forall in Hcoll. specialize (Hcoll _ Hin).
  destruct (reachable_scalar_invariant lower _ Hcoll)
    as (Hrange & _ & _ & Hauto & Hmod & Hreason & Hpend & _).
  assert (Hby : moderatedBy (item r) = None).
  { destruct (moderatedBy (item r)) eqn:E; [|reflexivity].
    destruct Hpend; [discriminate | exact Hpending]. }
  split; [exact Hby|]. split; [apply Hmod, Hby|].
  split; [apply Hreason, Hby|].
  specialize (Hauto Hby). rewrite Hpending in Hauto.
  destruct (autoStatus_cases (spamScore (item r)) pending)
    as [[? Heq]|[? _]]; [congruence | lia].
Qed.

(** X18. When the collection holds comments the operations produce,
    every comment the approved-comments query returns, at top level or
    as an attached reply, carries the moderator and the instant of a
    moderation call: nothing is listed that no moderator approved. *)
Theorem listing_holds_moderated (lower : jsString -> jsString)
    (coll : list Comment) (post : ObjectId)
    (Hcoll : Forall (reachable lower) coll) :
  Forall
    (fun r =>
       (moderatedBy (doc r) ≠ None ∧ moderatedAt (doc r) ≠ None)
       ∧ Forall (fun d => moderatedBy d ≠ None ∧ moderatedAt d ≠ None)
           (populatedReplies r))
    (findApprovedByPost coll post).
Proof.
  assert (Happroved : ∀ d, d ∈ coll → status d = approved →
            moderatedBy d ≠ None ∧ moderatedAt d ≠ None).
  { intros d Hin Hst. rewrite Forall_forall in Hcoll.
    destruct (reachable_scalar_invariant lower _ (Hcoll _ Hin))
      as (_ & _ & _ & Hauto & Hmod & _).
    assert (Hby : moderatedBy d ≠ None).
    { intros Hnone. specialize (Hauto Hnone). rewrite Hst in Hauto.
      destruct (autoStatus_cases (spamScore d) pending)
        as [[_ Heq]|[_ Heq]]; congruence. }
    split; [exact Hby | tauto]. }
  unfold findApprovedByPost. apply Forall_fmap, Forall_forall.
  intros c Hc. rewrite merge_sort_Permutation in Hc.
  apply list_elem_of_filter in Hc as [(_ & Hst & _) Hin]. simpl. split.
  - apply Happroved; assumption.
  - apply Forall_forall. intros d Hd.
    rewrite merge_sort_Permutation in Hd.
    apply list_elem_of_filter in Hd as [[_ Hdst] Hdin].
    apply Happroved; assumption.
Qed.

Lemma reachable_submit id post_ at_ text parent :
  reachable asciiRuntime (submit id post_ at_ text parent).
Proof. unfold submit. apply reach_save, reach_new. Defined.

Lemma reachable_sampleCollection :
  Forall (reachable asciiRuntime) sampleCollection.
Proof.
  unfold sampleCollection.
  repeat apply List.Forall_cons.
  - apply reach_approve, reach_addReply, reach_addReply, reach_addReply.
    apply reachable_submit.
  - apply reach_approve, reachable_submit.
  - apply reachable_submit.
  - apply reach_approve, reachable_submit.
  - apply reach_approve, reachable_submit.
  - apply reach_approve, reachable_submit.
  - apply List.Forall_nil.
Defined.

Lemma queue_holds_unmoderated_witness :
  _id <$> (item <$> findPendingModeration sampleCollection []) = [3%N]
  ∧ Forall
      (fun r =>
         moderatedBy (item r) = None ∧ moderatedAt (item r) = None
         ∧ moderationReason (item r) = None
         ∧ 0 <= spamScore (item r) < 70)
      (findPendingModeration sampleCollection []).
Proof.
  split; [vm_compute; reflexivity|].
  exact (queue_holds_unmoderated asciiRuntime sampleCollection []
           reachable_sampleCollection).
Defined.

Lemma listing_holds_moderated_witness :
  Forall
    (fun r =>
       (moderatedBy (doc r) ≠ None ∧ moderatedAt (doc r) ≠ None)
       ∧ Forall (fun d => moderatedBy d ≠ None ∧ moderatedAt d ≠ None)
           (populatedReplies r))
    (findApprovedByPost sampleCollection 2).
Proof.
  exact (listing_holds_moderated asciiRuntime sampleCollection 2%N
           reachable_sampleCollection).
Defined.

(** ** Where a comment shows *)

Lemma pending_items (coll : list Comment) (posts : list Post.t) c :
  c ∈ (item <$> findPendingModeration coll posts)
  ↔ c ∈ coll ∧ status c = pending.
Proof.
  unfold findPendingModeration.
  rewrite item_populatePost, merge_sort_Permutation, list_elem_of_filter.
  tauto.
Qed.

Lemma approved_docs (coll : list Comment) (post : ObjectId) c :
  c ∈ (doc <$> findApprovedByPost coll post)
  ↔ c ∈ coll ∧ topLevelApproved post c.
Proof.
  unfold findApprovedByPost.
  rewrite doc_populateReplies, merge_sort_Permutation, list_elem_of_filter.
  tauto.
Qed.

Lemma approved_replies (coll : list Comment) (post : ObjectId) r d :
  r ∈ findApprovedByPost coll post → d ∈ populatedReplies r →
  status d = approved.
Proof.
  unfold findApprovedByPost. intros Hr Hd.
  apply list_elem_of_fmap in Hr as (c & -> & _). simpl in Hd.
  rewrite merge_sort_Permutation in Hd.
  apply list_elem_of_filter in Hd as [[_ Hst] _]. exact Hst.
Qed.

(** X20. A submission that was just saved is never in the approved
    listing of any post, neither at top level nor as an attached reply;
    it is in the moderation queue exactly when its score is below 70,
    and otherwise it is [spam] and in neither view. *)
Theorem submission_visibility (lower : jsString -> jsString)
    (now : Date) (id : ObjectId) (input : CommentInput)
    (coll : list Comment) (posts : list Post.t) :
  let c := save lower now (newComment lower id input) in
  ((spamScore c < 70
    ∧ c ∈ (item <$> findPendingModeration (c :: coll) posts))
   ∨ (70 <= spamScore c ∧ status c = spam
      ∧ (c ∉ (item <$> findPendingModeration (c :: coll) posts))))
  ∧ (∀ post_,
       (c ∉ (doc <$> findApprovedByPost (c :: coll) post_))
       ∧ Forall (fun r => c ∉ populatedReplies r)
           (findApprovedByPost (c :: coll) post_)).
Proof.
  intros c.
  assert (Hst : status c = autoStatus (spamScore c) pending).
  { subst c. rewrite save_new_status, save_new_spamScore. reflexivity. }
  clearbody c.
  assert (Hnot : status c ≠ approved).
  { rewrite Hst.
    destruct (autoStatus_cases (spamScore c) pending) as [[_ ->]|[_ ->]];
      discriminate. }
  split.
  - destruct (autoStatus_cases (spamScore c) pending) as [[H E]|[H E]];
      rewrite E in Hst.
    + right. split; [exact H|]. split; [exact Hst|].
      rewrite pending_items. intros [_ Hp]. congruence.
    + left. split; [exact H|]. apply pending_items.
      split; [apply list_elem_of_here | exact Hst].
  - intros post_. split.
    + rewrite approved_docs. intros [_ (_ & Ha & _)]. contradiction.
    + apply Forall_forall. intros r Hr Hin.
      exact (Hnot (approved_replies _ _ _ _ Hr Hin)).
Qed.

(** X21. After a moderation call on a stored comment without unsaved
    change of content the comment is out of the moderation queue. After
    [approve] a comment without parent is in the approved listing of its
    post; after [reject] or [markAsSpam] it is in no listing at all. *)
Theorem moderation_moves_between_views (lower : jsString -> jsString)
    (now : Date) (moderatorId : ObjectId) (reason : option jsString)
    (c : Comment) (coll : list Comment) (posts : list Post.t)
    (Hstored : isNew c = false) (Hclean : isModified_content c = false) :
  let a := approve lower now moderatorId reason c in
  ((a ∉ (item <$> findPendingModeration (a :: coll) posts))
   ∧ (parentComment c ≠ None
      ∨ a ∈ (doc <$> findApprovedByPost (a :: coll) (postId c))))
  ∧ Forall
      (fun x =>
         (x ∉ (item <$> findPendingModeration (x :: coll) posts))
         ∧ ∀ post_,
             (x ∉ (doc <$> findApprovedByPost (x :: coll) post_))
             ∧ Forall (fun r => x ∉ populatedReplies r)
                 (findApprovedByPost (x :: coll) post_))
      [reject lower now moderatorId reason c;
       markAsSpam lower now moderatorId reason c].
Proof.
  intros a.
  assert (Ha : status a = approved ∧ postId a = postId c
               ∧ parentComment a = parentComment c).
  { subst a. destruct c; simpl in Hstored, Hclean; subst.
    destruct reason as [[|? ?]|]; repeat split; reflexivity. }
  assert (Hr : status (reject lower now moderatorId reason c) = rejected).
  { destruct c; simpl in Hstored, Hclean; subst.
    destruct reason as [[|? ?]|]; reflexivity. }
  assert (Hs : status (markAsSpam lower now moderatorId reason c) = spam).
  { destruct c; simpl in Hstored, Hclean; subst.
    destruct reason as [[|? ?]|]; reflexivity. }
  clearbody a. destruct Ha as (Hst & Hpost & Hparent).
  assert (Hhidden : ∀ x, status x = rejected ∨ status x = spam →
    (x ∉ (item <$> findPendingModeration (x :: coll) posts))
    ∧ ∀ post_,
        (x ∉ (doc <$> findApprovedByPost (x :: coll) post_))
        ∧ Forall (fun r => x ∉ populatedReplies r)
            (findApprovedByPost (x :: coll) post_)).
  { intros x Hx. split.
    - rewrite pending_items. intros [_ Hp]. destruct Hx; congruence.
    - intros post_. split.
      + rewrite approved_docs. intros [_ (_ & Hap & _)].
        destruct Hx; congruence.
      + apply Forall_forall. intros r Hin Hd.
        pose proof (approved_replies _ _ _ _ Hin Hd).
        destruct Hx; congruence. }
  split.
  - split.
    + rewrite pending_items. intros [_ Hp]. congruence.
    + destruct (parentComment c) eqn:E; [left; discriminate | right].
      apply approved_docs. split; [apply list_elem_of_here|].
      unfold topLevelApproved. auto.
  - apply Forall_cons. split; [apply Hhidden; auto|].
    apply Forall_cons. split; [apply Hhidden; auto | apply Forall_nil].
    exact I.
Qed.

Lemma moderation_moves_between_views_witness :
  let a := approve asciiRuntime 30 4 None storedHello in
  status storedHello = pending
  ∧ (a ∉ (item <$> findPendingModeration [a] []))
  ∧ (a ∈ (doc <$> findApprovedByPost [a] 2)).
Proof.
  intros a. split; [reflexivity|].
  destruct (moderation_moves_between_views asciiRuntime 30 4%N None
              storedHello [] [] eq_refl eq_refl) as [[Hq Hl] _].
  split; [exact Hq|].
  destruct Hl as [Hl|Hl]; [destruct (Hl eq_refl) | exact Hl].
Defined.
